(** * Label Simplified: the normalisation and fallback contract

    A shallow embedding of the result normalisers and of the request
    strategies of [agent/ocr.ts], [agent/explain.ts] and
    [tools/fetch_json.ts], with the properties the specification states
    about them.

    JavaScript strings are sequences of UTF-16 code units, numbers are
    IEEE 754 binary64 values ([spec_float]), a parsed JSON document is a
    tree of [value]s, and the network is a script of replies consumed by
    [fetch], which also records every request that was sent. *)

From Stdlib Require Import String Ascii.
From Stdlib Require Import List Bool ZArith NArith QArith Qround Qpower Qabs Lia.
From Stdlib Require Import Floats.SpecFloat.
Import ListNotations.

Set Implicit Arguments.

(** ** JavaScript strings *)

Module JsString.

Local Open Scope N_scope.

(** One UTF-16 code unit. *)
Definition unit16 := N.
Definition jsstring := list unit16.

(** A string literal of the source, written in ASCII. *)
Definition lit (s : string) : jsstring :=
  map N_of_ascii (list_ascii_of_string s).

Fixpoint str_eqb (a b : jsstring) : bool :=
  match a, b with
  | [], [] => true
  | x :: a', y :: b' => N.eqb x y && str_eqb a' b'
  | _, _ => false
  end.

(** [s.length > 0] *)
Definition nonempty (s : jsstring) : bool :=
  match s with [] => false | _ :: _ => true end.

(** *** [String.prototype.trim]

    The code units removed are ECMAScript's WhiteSpace and
    LineTerminator: TAB, LF, VT, FF, CR, SP, NBSP, U+1680,
    U+2000..U+200A, LS, PS, U+202F, U+205F, U+3000 and the BOM. *)
Definition is_ws (c : unit16) : bool :=
  ((9 <=? c) && (c <=? 13)) || (c =? 32) || (c =? 160) || (c =? 5760)
  || ((8192 <=? c) && (c <=? 8202)) || (c =? 8232) || (c =? 8233)
  || (c =? 8239) || (c =? 8287) || (c =? 12288) || (c =? 65279).

Fixpoint dropWhile (p : unit16 -> bool) (s : jsstring) : jsstring :=
  match s with
  | [] => []
  | c :: t => if p c then dropWhile p t else s
  end.

Definition trimStart (s : jsstring) : jsstring := dropWhile is_ws s.
Definition trimEnd (s : jsstring) : jsstring := rev (dropWhile is_ws (rev s)).
Definition trim (s : jsstring) : jsstring := trimEnd (trimStart s).

(** *** [String.prototype.split] with a one-character class

    [split_on p s] is [s.split(/[...]/)] for the class whose members [p]
    recognises: the list of the maximal separator-free pieces, empty
    pieces included; the empty string splits into one empty piece. *)
Fixpoint split_on (p : unit16 -> bool) (s : jsstring) : list jsstring :=
  match s with
  | [] => [[]]
  | c :: t =>
      if p c then [] :: split_on p t
      else match split_on p t with
           | [] => [[c]]
           | f :: fs => (c :: f) :: fs
           end
  end.

(** *** [startsWith], [endsWith], [includes] *)
Fixpoint startsWith (s pre : jsstring) : bool :=
  match pre, s with
  | [], _ => true
  | x :: pre', y :: s' => N.eqb x y && startsWith s' pre'
  | _ :: _, [] => false
  end.

Definition endsWith (s suf : jsstring) : bool :=
  startsWith (rev s) (rev suf).

Fixpoint includes (s sub : jsstring) : bool :=
  startsWith s sub ||
  match s with
  | [] => false
  | _ :: t => includes t sub
  end.

(** *** Insertion-ordered [Set] of strings

    [Array.from(new Set(l))]: the elements are added from left to right,
    an element already present is not added again. *)
Definition set_has (seen : list jsstring) (x : jsstring) : bool :=
  existsb (str_eqb x) seen.

Definition set_add (seen : list jsstring) (x : jsstring) : list jsstring :=
  if set_has seen x then seen else seen ++ [x].

Definition dedup (l : list jsstring) : list jsstring :=
  fold_left set_add l [].

(** The same list, described by recursion on the input: keep the head and
    remove its later copies. *)
Fixpoint first_seen (l : list jsstring) : list jsstring :=
  match l with
  | [] => []
  | x :: t => x :: filter (fun y => negb (str_eqb x y)) (first_seen t)
  end.

End JsString.
Import JsString.

(** ** [String.prototype.toLowerCase]

    The conversion follows the Unicode case tables of the JavaScript engine,
    which are not part of the repository.  The development is parametric in
    the conversion and relies only on the following facts about it: on
    ASCII text it lowers [A-Z] and nothing else; converting twice is
    converting once; it creates none of the four ingredient separators; it
    creates no white space at either end of a string. *)

Definition is_ascii (c : unit16) : bool := (c <? 128)%N.

Definition ascii_lower (c : unit16) : unit16 :=
  if ((65 <=? c) && (c <=? 90))%N then (c + 32)%N else c.

(** The separators of an ingredient list: line feed, U+2022 BULLET,
    semicolon and comma. *)
Definition is_line_sep (c : unit16) : bool := ((c =? 10) || (c =? 8226))%N.
Definition is_item_sep (c : unit16) : bool := ((c =? 59) || (c =? 44))%N.
Definition is_sep (c : unit16) : bool := is_line_sep c || is_item_sep c.

Class CaseMapping := {
  toLowerCase : jsstring -> jsstring;
  lower_ascii : forall s,
    forallb is_ascii s = true -> toLowerCase s = map ascii_lower s;
  lower_idem : forall s, toLowerCase (toLowerCase s) = toLowerCase s;
  lower_sep : forall s c,
    is_sep c = true -> In c (toLowerCase s) -> In c s;
  lower_trim : forall s, trim s = s -> trim (toLowerCase s) = toLowerCase s
}.

(** ** JavaScript numbers *)

Module JsNumber.

Definition number := spec_float.

Definition prec : Z := 53.
Definition emax : Z := 1024.

(** The double of an integer and the correctly rounded quotient of two
    doubles; [decimal n d] is the double denoted by the decimal text of
    [n / d], as a numeric literal or [parseFloat] reads it. *)
Definition of_Z (z : Z) : number := binary_normalize prec emax z 0 false.
Definition div (x y : number) : number := SFdiv prec emax x y.
Definition decimal (n d : Z) : number := div (of_Z n) (of_Z d).

Definition zero : number := S754_zero false.
Definition one : number := of_Z 1.

(** The exact value of a finite double. *)
Definition to_Q (x : number) : option Q :=
  match x with
  | S754_zero _ => Some 0%Q
  | S754_finite s m e =>
      Some ((if s then -(1) else 1) * inject_Z (Zpos m) * (2 ^ e))%Q
  | _ => None
  end.

Definition isNaN (x : number) : bool :=
  match x with S754_nan => true | _ => false end.

(** Comparison by value: [None] when an operand is NaN. *)
Definition compare (x y : number) : option comparison :=
  match x, y with
  | S754_nan, _ | _, S754_nan => None
  | S754_infinity sx, S754_infinity sy =>
      Some (if sx then (if sy then Eq else Lt) else (if sy then Gt else Eq))
  | S754_infinity sx, _ => Some (if sx then Lt else Gt)
  | _, S754_infinity sy => Some (if sy then Gt else Lt)
  | _, _ =>
      match to_Q x, to_Q y with
      | Some p, Some q => Some (p ?= q)%Q
      | _, _ => None
      end
  end.

(** [x < y] and [x <= y] of the language. *)
Definition ltb (x y : number) : bool :=
  match compare x y with Some Lt => true | _ => false end.
Definition leb (x y : number) : bool :=
  match compare x y with Some Lt | Some Eq => true | _ => false end.

Definition is_neg_zero (x : number) : bool :=
  match x with S754_zero true => true | _ => false end.

(** [Math.min(x, y)] *)
Definition Math_min (x y : number) : number :=
  if isNaN x || isNaN y then S754_nan
  else if ltb x y then x
  else if ltb y x then y
  else if is_neg_zero x then x
  else if is_neg_zero y then y
  else x.

(** [x.toFixed(3)]: the integer [n] for which [n / 1000 - x] is as close
    to zero as possible, the larger one when there are two.  The text
    produced is the decimal expansion of [n / 1000]. *)
Definition toFixed3 (q : Q) : Z := Qfloor (1000 * q + (1 # 2)).

(** [Number.parseFloat(x.toFixed(3))].  A negative [x] is printed as the
    sign followed by the text of [-x]; from 1e21 on [toFixed] prints [x]
    itself, and so do the infinities and NaN. *)
Definition round3 (x : number) : number :=
  match x with
  | S754_zero _ => zero
  | S754_finite s _ _ =>
      match to_Q (SFabs x) with
      | Some q =>
          if Qle_bool (inject_Z (10 ^ 21)) q then x
          else
            let r := decimal (toFixed3 q) 1000 in
            if s then SFopp r else r
      | None => x
      end
  | _ => x
  end.

End JsNumber.
Import JsNumber.

(** ** Parsed JSON documents and other runtime values *)

#[warnings="-register-all"]
Inductive value :=
| VUndefined
| VNull
| VBool (b : bool)
| VNum (x : number)
| VStr (s : jsstring)
| VArr (elems : list value)
| VObj (fields : list (jsstring * value)).

(** [!v] *)
Definition falsy (v : value) : bool :=
  match v with
  | VUndefined | VNull => true
  | VBool b => negb b
  | VNum x =>
      match x with
      | S754_zero _ | S754_nan => true
      | _ => false
      end
  | VStr s => negb (nonempty s)
  | VArr _ | VObj _ => false
  end.

(** [typeof v === "object"], which holds of [null] and of arrays too. *)
Definition typeof_object (v : value) : bool :=
  match v with
  | VNull | VArr _ | VObj _ => true
  | _ => false
  end.

Fixpoint lookup (k : jsstring) (fields : list (jsstring * value)) : value :=
  match fields with
  | [] => VUndefined
  | (k', v) :: rest => if str_eqb k k' then v else lookup k rest
  end.

(** [v.k] for a [v] that is neither [null] nor [undefined], and for the
    property names this program reads: none of them is a property of a
    string, a number, a boolean or an array. *)
Definition get (v : value) (k : string) : value :=
  match v with
  | VObj fields => lookup (lit k) fields
  | _ => VUndefined
  end.

(** [v?.k] *)
Definition get_opt (v : value) (k : string) : value :=
  match v with
  | VUndefined | VNull => VUndefined
  | _ => get v k
  end.

(** [v?.[0]] *)
Definition get_opt0 (v : value) : value :=
  match v with
  | VArr (x :: _) => x
  | VStr (c :: _) => VStr [c]
  | VObj fields => lookup (lit "0") fields
  | _ => VUndefined
  end.

(** A property of [process.env], with the fallback of [env.X || d]. *)
Definition or_default (o : option jsstring) (d : jsstring) : jsstring :=
  match o with
  | Some (c :: s) => c :: s
  | _ => d
  end.

(** [s.replace(/\/$/, e)] with [e] the empty string *)
Definition strip_trailing_slash (s : jsstring) : jsstring :=
  match rev s with
  | 47%N :: r => rev r
  | _ => s
  end.

(** ** The network and the monad of the two clients

    [fetch] consumes the next scripted reply and records the request.  A
    reply is a response, whatever its status, or a rejection (a network
    failure, or the abort of a timed-out request). *)

Inductive response_format :=
| json_schema (name : jsstring)
| json_object.

Inductive request :=
| ChatCompletion (url apiKey model : jsstring) (format : response_format)
    (userContent : jsstring)
| Get (url : jsstring) (headers : list (jsstring * jsstring)).

Record response := {
  status : Z;
  statusText : jsstring;
  contentType : option jsstring;   (* headers.get('content-type') *)
  body : option jsstring           (* None: reading the body rejects *)
}.

(** [response.ok] *)
Definition ok (r : response) : bool :=
  ((200 <=? status r) && (status r <=? 299))%Z.

Inductive reply :=
| Responds (r : response)
| Rejects (name message : jsstring).

Record world := {
  pending : list reply;
  sent : list request
}.

Inductive caller := AnalyzeLabel | ExplainIngredients.

(** The errors raised, one constructor per message template. *)
Inductive error :=
| ImageUrlRequired                  (* analyzeLabel: image_url is required *)
| InterfazeApiError (who : caller) (code : Z) (errText : jsstring)
                                    (* <who>: Interfaze API error <code>: <errText> *)
| UrlNotAllowed (url : jsstring)    (* fetch_json: URL not allowed: <url> *)
| HttpError (code : Z) (reason : jsstring)
                                    (* fetch_json: HTTP <code> <reason> *)
| NotJson                           (* fetch_json: Response is not JSON *)
| TimedOut                          (* fetch_json: Request timed out after 6s *)
| FetchJsonFailed (cause : error)   (* fetch_json: <message of the cause> *)
| Rejected (name message : jsstring) (* the rejection of a fetch *)
| BodyRejected                      (* response.json() rejects *)
| NullDereference.                  (* TypeError: a property read on null *)

Inductive outcome (A : Type) :=
| Returned (a : A)
| Thrown (e : error).
Arguments Returned {A} a.
Arguments Thrown {A} e.

Definition M (A : Type) : Type := world -> outcome A * world.

Definition ret {A} (a : A) : M A := fun w => (Returned a, w).
Definition throw {A} (e : error) : M A := fun w => (Thrown e, w).
Definition bind {A B} (m : M A) (k : A -> M B) : M B :=
  fun w =>
    match m w with
    | (Returned a, w') => k a w'
    | (Thrown e, w') => (Thrown e, w')
    end.
Definition try_catch {A} (m : M A) (handler : error -> M A) : M A :=
  fun w =>
    match m w with
    | (Returned a, w') => (Returned a, w')
    | (Thrown e, w') => handler e w'
    end.

Declare Scope js_scope.
Delimit Scope js_scope with js.
Notation "x <- m ;; k" := (bind m (fun x => k))
  (at level 61, m at next level, right associativity) : js_scope.
Open Scope js_scope.

Definition fetch (req : request) : M response :=
  fun w =>
    let w' := {| pending := tl (pending w); sent := sent w ++ [req] |} in
    match pending w with
    | Responds r :: _ => (Returned r, w')
    | Rejects name message :: _ => (Thrown (Rejected name message), w')
    | [] => (Thrown (Rejected (lit "TypeError") (lit "fetch failed")), w')
    end.

(** [await response.text()], the empty string when it rejects *)
Definition text_or_empty (r : response) : jsstring :=
  match body r with
  | Some t => t
  | None => []
  end.

(** [process.env] *)
Record environment := {
  INTERFAZE_API_BASE : option jsstring;
  INTERFAZE_API_KEY : option jsstring;
  INTERFAZE_OCR_MODEL : option jsstring;
  INTERFAZE_EXPLAIN_MODEL : option jsstring;
  NODE_ENV : option jsstring
}.

(** The parts of the runtime the clients call: the JSON parser, the URL
    parser (the host name of a URL, [None] when [new URL] throws) and the
    case tables. *)
Class Runtime := {
  JSON_parse : jsstring -> option value;
  URL_hostname : jsstring -> option jsstring;
  case_mapping :: CaseMapping
}.

(** [await response.json()] *)
Definition response_json `{Runtime} (r : response) : M value :=
  match body r with
  | Some t =>
      match JSON_parse t with
      | Some v => ret v
      | None => throw BodyRejected
      end
  | None => throw BodyRejected
  end.

(** The text of the first choice of a chat completion: a string, or the
    first chunk of a list that has a string [output_text] or [text]. *)
Fixpoint first_chunk_text (chunks : list value) : jsstring :=
  match chunks with
  | [] => []
  | chunk :: rest =>
      match get_opt chunk "output_text" with
      | VStr s => s
      | _ =>
          match get_opt chunk "text" with
          | VStr s => s
          | _ => first_chunk_text rest
          end
      end
  end.

Definition extractMessageContent (payload : value) : jsstring :=
  let message := get_opt (get_opt0 (get_opt payload "choices")) "message" in
  if falsy message then []
  else
    match get message "content" with
    | VStr s => s
    | VArr chunks => first_chunk_text chunks
    | _ => []
    end.

(** ** agent/ocr.ts *)

Module Ocr.
Section WithRuntime.
Context `{Runtime}.

Inductive Domain := food | drug | cosmetic | mixed.

Record Sections := {
  warnings : option jsstring;
  claims : option (list jsstring)
}.

Record OCRResult := {
  domain_guess : Domain;
  ingredients : list jsstring;
  sections : Sections;
  confidence : number;
  language : jsstring
}.

Definition DEFAULT_RESULT : OCRResult := {|
  domain_guess := mixed;
  ingredients := [];
  sections := {| warnings := None; claims := None |};
  confidence := zero;
  language := lit "en"
|}.

(** The pieces one entry contributes:
    [entry.split(/[\n\u2022]/).flatMap(s => s.split(/[;,]/))
          .map(s => s.trim().toLowerCase()).filter(s => s.length > 0)] *)
Definition splits (entry : jsstring) : list jsstring :=
  filter nonempty
    (map (fun s => toLowerCase (trim s))
       (flat_map (split_on is_item_sep) (split_on is_line_sep entry))).

(** The loop over [items]: entries that are not strings are skipped. *)
Definition collect (items : list value) : list jsstring :=
  flat_map (fun entry =>
              match entry with
              | VStr s => splits s
              | _ => []
              end) items.

Definition normalizeIngredients (raw : value) : list jsstring :=
  if falsy raw then []
  else
    let items := match raw with VArr l => l | _ => [raw] end in
    dedup (collect items).

(** The claims kept: the strings whose trimmed text is not empty, trimmed. *)
Definition keep_claims (l : list value) : list jsstring :=
  flat_map (fun c =>
              match c with
              | VStr s => if nonempty (trim s) then [trim s] else []
              | _ => []
              end) l.

Definition normalizeSections (raw : value) : Sections :=
  if falsy raw || negb (typeof_object raw) then
    {| warnings := None; claims := None |}
  else
    {| warnings :=
         match get raw "warnings" with
         | VStr s => if nonempty (trim s) then Some (trim s) else None
         | _ => None
         end;
       claims :=
         match get raw "claims" with
         | VArr l =>
             match keep_claims l with
             | [] => None
             | c :: cs => Some (c :: cs)
             end
         | _ => None
         end |}.

Definition normalizeDomain (domain : value) : Domain :=
  match domain with
  | VStr s =>
      if str_eqb s (lit "food") then food
      else if str_eqb s (lit "drug") then drug
      else if str_eqb s (lit "cosmetic") then cosmetic
      else mixed
  | _ => mixed
  end.

Definition normalizeConfidence (v : value) : number :=
  match v with
  | VNum x =>
      if isNaN x then zero
      else if ltb x zero then zero
      else if ltb one x then one
      else round3 x
  | _ => zero
  end.

(** [/^[a-z]{2,3}(?:-[a-z0-9]{2,8})*$/]: cut at the hyphens, the first
    part is two or three letters and every other part two to eight
    letters or digits. *)
Definition is_az (c : unit16) : bool := ((97 <=? c) && (c <=? 122))%N.
Definition is_09 (c : unit16) : bool := ((48 <=? c) && (c <=? 57))%N.
Definition is_hyphen (c : unit16) : bool := (c =? 45)%N.

Definition primary_subtag (p : jsstring) : bool :=
  forallb is_az p && (2 <=? length p)%nat && (length p <=? 3)%nat.
Definition other_subtag (p : jsstring) : bool :=
  forallb (fun c => is_az c || is_09 c) p
  && (2 <=? length p)%nat && (length p <=? 8)%nat.

Definition language_tag (s : jsstring) : bool :=
  match split_on is_hyphen s with
  | [] => false
  | p :: ps => primary_subtag p && forallb other_subtag ps
  end.

Definition normalizeLanguage (v : value) : jsstring :=
  match v with
  | VStr s =>
      let trimmed := trim s in
      if nonempty trimmed then
        let lower := toLowerCase trimmed in
        if language_tag lower then lower else lit "en"
      else lit "en"
  | _ => lit "en"
  end.

(** The result built from the parsed text of the model, with the cap on
    the confidence of a result without ingredients. *)
Definition normalizeResult (raw : value) : OCRResult :=
  let result := {|
    domain_guess := normalizeDomain (get_opt raw "domain_guess");
    ingredients := normalizeIngredients (get_opt raw "ingredients");
    sections := normalizeSections (get_opt raw "sections");
    confidence := normalizeConfidence (get_opt raw "confidence");
    language := normalizeLanguage (get_opt raw "language")
  |} in
  match ingredients result with
  | [] => {|
      domain_guess := domain_guess result;
      ingredients := ingredients result;
      sections := sections result;
      confidence := Math_min (confidence result) (decimal 2 10);
      language := language result
    |}
  | _ :: _ => result
  end.

Definition is_400_or_422 (r : response) : bool :=
  ((status r =? 400) || (status r =? 422))%Z.

(** The end of [analyzeLabel], from [await response.json()] on. *)
Definition readResponse (response : response) : M OCRResult :=
  payload <- response_json response ;;
  let content := extractMessageContent payload in
  if nonempty content then
    match JSON_parse content with
    | Some raw => ret (normalizeResult raw)
    | None => ret DEFAULT_RESULT
    end
  else ret DEFAULT_RESULT.

(** The two requests of [analyzeLabel]: the one with the strict schema
    and the one with the relaxed format. *)
Definition endpoint (env : environment) : jsstring :=
  strip_trailing_slash
    (or_default (INTERFAZE_API_BASE env) (lit "https://api.interfaze.ai/v1"))
  ++ lit "/chat/completions".

Definition schemaRequest (env : environment) (apiKey image : jsstring)
  : request :=
  ChatCompletion (endpoint env) apiKey
    (or_default (INTERFAZE_OCR_MODEL env) (lit "interfaze-beta"))
    (json_schema (lit "ocr_result")) image.

Definition jsonObjectRequest (env : environment) (apiKey image : jsstring)
  : request :=
  ChatCompletion (endpoint env) apiKey
    (or_default (INTERFAZE_OCR_MODEL env) (lit "interfaze-beta"))
    json_object image.

(** [analyzeLabel(image_url)] *)
Definition analyzeLabel (env : environment) (image_url : value)
  : M OCRResult :=
  match image_url with
  | VStr (c :: u) =>
      let image := c :: u in
      match INTERFAZE_API_KEY env with
      | Some (k :: ey) =>
          let apiKey := k :: ey in
          first <- fetch (schemaRequest env apiKey image) ;;
          response <-
            (if negb (ok first) && is_400_or_422 first
             then fetch (jsonObjectRequest env apiKey image)
             else ret first) ;;
          if negb (ok response) then
            throw (InterfazeApiError AnalyzeLabel (status response)
                     (text_or_empty response))
          else readResponse response
      | _ => ret DEFAULT_RESULT
      end
  | _ => throw ImageUrlRequired
  end.

End WithRuntime.
End Ocr.

(** ** tools/fetch_json.ts *)

Module FetchJson.
Section WithRuntime.
Context `{Runtime}.

Definition WHITELIST : list jsstring :=
  [lit "openfoodfacts.org"; lit "openbeautyfacts.org"].

Definition isWhitelisted (url : jsstring) : bool :=
  match URL_hostname url with
  | Some hostname =>
      existsb (fun domain =>
                 str_eqb hostname domain
                 || endsWith hostname (lit "." ++ domain)) WHITELIST
  | None => false
  end.

Definition is_json_type (r : response) : bool :=
  match contentType r with
  | Some ct => nonempty ct && includes ct (lit "application/json")
  | None => false
  end.

(** The [catch] clause: an abort is reported as a timeout, any other
    error, the two raised in the [try] block included, is wrapped. *)
Definition rethrow {A} (e : error) : M A :=
  match e with
  | Rejected name _ =>
      if str_eqb name (lit "AbortError") then throw TimedOut
      else throw (FetchJsonFailed e)
  | _ => throw (FetchJsonFailed e)
  end.

Definition fetch_json (url : jsstring)
    (headers : list (jsstring * jsstring)) : M value :=
  if negb (isWhitelisted url) then throw (UrlNotAllowed url)
  else
    try_catch
      (response <- fetch (Get url headers) ;;
       if negb (ok response) then
         throw (HttpError (status response) (statusText response))
       else if negb (is_json_type response) then throw NotJson
       else response_json response)
      rethrow.

End WithRuntime.
End FetchJson.

(** ** agent/explain.ts *)

Module Explain.
Section WithRuntime.
Context `{Runtime}.

Inductive RiskLevel := Green | Yellow | Red | Unknown.

Record ExplanationItem := {
  name : jsstring;
  function : jsstring;
  risk_level : RiskLevel;
  why : jsstring;
  certainty : number;
  sources : list jsstring
}.

Record ExplanationResult := {
  summary : jsstring;
  items : list ExplanationItem;
  disclaimer : jsstring
}.

Definition DEFAULT_RESULT : ExplanationResult := {|
  summary := lit "Ingredient explanations unavailable while the language service is offline.";
  items := [];
  disclaimer := lit "This is not medical advice."
|}.

Definition normalizeRiskLevel (v : value) : RiskLevel :=
  match v with
  | VStr s =>
      if str_eqb s (lit "Green") then Green
      else if str_eqb s (lit "Yellow") then Yellow
      else if str_eqb s (lit "Red") then Red
      else Unknown
  | _ => Unknown
  end.

Definition normalizeCertainty (v : value) : number :=
  match v with
  | VNum x =>
      if isNaN x then zero
      else if ltb x zero then zero
      else if ltb one x then one
      else round3 x
  | _ => zero
  end.

Definition string_or (v : value) (d : jsstring) : jsstring :=
  match v with
  | VStr s => s
  | _ => d
  end.

(** The sources kept: the strings whose trimmed text is not empty, as
    they are. *)
Definition keep_sources (l : list value) : list jsstring :=
  flat_map (fun source =>
              match source with
              | VStr s => if nonempty (trim s) then [s] else []
              | _ => []
              end) l.

(** One step of the [map] of [normalizeItems]; [None] is [undefined]. *)
Definition normalizeItem (entry : value) : option ExplanationItem :=
  if falsy entry || negb (typeof_object entry) then None
  else Some {|
    name := string_or (get entry "name") (lit "Unknown");
    function := string_or (get entry "function") [];
    risk_level := normalizeRiskLevel (get entry "risk_level");
    why := string_or (get entry "why") [];
    certainty := normalizeCertainty (get entry "certainty");
    sources :=
      match get entry "sources" with
      | VArr l => keep_sources l
      | _ => []
      end
  |}.

Definition normalizeItems (raw : value) : list ExplanationItem :=
  match raw with
  | VArr l =>
      flat_map (fun entry =>
                  match normalizeItem entry with
                  | Some item => [item]
                  | None => []
                  end) l
  | _ => []
  end.

Definition or_empty (o : option jsstring) : jsstring :=
  match o with Some s => s | None => [] end.

Definition modelsToTry (env : environment) : list jsstring :=
  dedup (filter nonempty
           [trim (or_empty (INTERFAZE_EXPLAIN_MODEL env));
            trim (or_empty (INTERFAZE_OCR_MODEL env));
            lit "interfaze-beta"]).

(** The variables the loop over the candidates assigns. *)
Record attempt_state := {
  response_ : option response;
  lastStatus : option Z;
  lastErrorText : jsstring
}.

Definition initial_state : attempt_state :=
  {| response_ := None; lastStatus := None; lastErrorText := [] |}.

Definition is_400_or_422 (r : response) : bool :=
  ((status r =? 400) || (status r =? 422))%Z.

(** [for (const candidate of candidates) { ... }]: a response that is
    [ok] ends the loop; after any other one the loop goes on, through the
    [continue] statement or by reaching the end of the body. *)
Fixpoint attempts (request_for : jsstring -> request)
    (candidates : list jsstring) (st : attempt_state) : M attempt_state :=
  match candidates with
  | [] => ret st
  | candidate :: rest =>
      attempt <- fetch (request_for candidate) ;;
      if ok attempt then
        ret {| response_ := Some attempt;
               lastStatus := lastStatus st;
               lastErrorText := lastErrorText st |}
      else
        let st' := {| response_ := response_ st;
                      lastStatus := Some (status attempt);
                      lastErrorText := text_or_empty attempt |} in
        if is_400_or_422 attempt
           && negb (str_eqb candidate (lit "interfaze-beta"))
        then attempts request_for rest st'
        else attempts request_for rest st'
  end.

(** The result built from the parsed text of the model. *)
Definition shapeResult (rawResult : value) : M ExplanationResult :=
  match rawResult with
  | VNull => throw NullDereference
  | _ =>
      ret {| summary :=
               string_or (get rawResult "summary") (summary DEFAULT_RESULT);
             items := normalizeItems (get rawResult "items");
             disclaimer :=
               string_or (get rawResult "disclaimer")
                 (disclaimer DEFAULT_RESULT) |}
  end.

Definition is_production (env : environment) : bool :=
  match NODE_ENV env with
  | Some s => str_eqb s (lit "production")
  | None => false
  end.

(** The end of [explainIngredients], from [await response.json()] on.
    Outside production the usage of the payload is logged, which reads a
    property of the payload. *)
Definition readResponse (env : environment) (response : response)
  : M ExplanationResult :=
  payload <- response_json response ;;
  match payload, is_production env with
  | VNull, false => throw NullDereference
  | _, _ =>
      let content := extractMessageContent payload in
      if nonempty content then
        match JSON_parse content with
        | Some rawResult => shapeResult rawResult
        | None => ret DEFAULT_RESULT
        end
      else ret DEFAULT_RESULT
  end.

Definition endpoint (env : environment) : jsstring :=
  strip_trailing_slash
    (or_default (INTERFAZE_API_BASE env) (lit "https://api.interfaze.ai/v1"))
  ++ lit "/chat/completions".

(** [buildRequestBody(model)], posted to the endpoint. *)
Definition buildRequest (env : environment) (apiKey contextMessage : jsstring)
    (model : jsstring) : request :=
  ChatCompletion (endpoint env) apiKey model
    (json_schema (lit "explanation_result")) contextMessage.

(** [lastStatus ?? response?.status ?? 500] *)
Definition reported_status (st : attempt_state) : Z :=
  match lastStatus st, response_ st with
  | Some s, _ => s
  | None, Some r => status r
  | None, None => 500%Z
  end.

(** [explainIngredients(data)], from the loop over the candidate models
    on.  What precedes the loop (the two local documents, the glossary
    and risk matches, the optional external records) only determines the
    text of the request, [contextMessage]; the world is the one the loop
    starts in. *)
Definition explainIngredients (env : environment)
    (contextMessage : jsstring) : M ExplanationResult :=
  match INTERFAZE_API_KEY env with
  | Some (k :: ey) =>
      let apiKey := k :: ey in
      st <- attempts (buildRequest env apiKey contextMessage)
              (modelsToTry env) initial_state ;;
      match response_ st with
      | Some response =>
          if ok response then readResponse env response
          else throw (InterfazeApiError ExplainIngredients
                        (reported_status st) (lastErrorText st))
      | None =>
          throw (InterfazeApiError ExplainIngredients
                   (reported_status st) (lastErrorText st))
      end
  | _ => ret DEFAULT_RESULT
  end.

End WithRuntime.
End Explain.

(** ** agent/explain.ts: the context sent with the request *)

Module ExplainContext.

Record GlossaryEntry := {
  name : jsstring;
  synonyms : option (list jsstring);
  description : option jsstring;
  common_uses : option (list jsstring)
}.

Record RiskRule := {
  pattern : jsstring;
  risk_level : Explain.RiskLevel;
  reason : jsstring;
  applies_to : option (list jsstring)
}.

Record ExternalRecord := {
  ingredient : jsstring;
  source : jsstring;
  data : value
}.

(** An object created by a literal and used as a table from strings to
    objects: the list of its own properties. *)
Definition table (V : Type) : Type := list (jsstring * V).

Fixpoint own {V} (obj : table V) (k : jsstring) : option V :=
  match obj with
  | [] => None
  | (k', v) :: rest => if str_eqb k k' then Some v else own rest k
  end.

Fixpoint put {V} (obj : table V) (k : jsstring) (v : V) : table V :=
  match obj with
  | [] => [(k, v)]
  | (k', v') :: rest =>
      if str_eqb k k' then (k, v) :: rest else (k', v') :: put rest k v
  end.

(** [obj[k] = v] for a [v] that is an object: the key [__proto__] sets the
    prototype of [obj] and creates no property. *)
Definition assign {V} (obj : table V) (k : jsstring) (v : V) : table V :=
  if str_eqb k (lit "__proto__") then obj else put obj k v.

(** The variables of [process.env] read by the external lookups. *)
Record lookup_settings := {
  WEB_FETCH_ENABLED : option jsstring;
  OFF_FETCH_LIMIT : option jsstring
}.

Section WithRuntime.
Context `{Runtime}.

(** The callback of [glossary.find]. *)
Definition entry_matches (needle : jsstring) (item : GlossaryEntry) : bool :=
  str_eqb (toLowerCase (name item)) needle
  || existsb (fun syn => str_eqb (toLowerCase syn) needle)
       (match synonyms item with Some l => l | None => [] end).

Definition matchGlossaryEntries (ingredients : list jsstring)
    (glossary : list GlossaryEntry) : table GlossaryEntry :=
  fold_left
    (fun matches ingredient =>
       let needle := toLowerCase ingredient in
       match find (entry_matches needle) glossary with
       | Some entry => assign matches ingredient entry
       | None => matches
       end)
    ingredients [].

(** The callback of [rules.filter]. *)
Definition rule_applies (lower : jsstring) (rule : RiskRule) : bool :=
  match applies_to rule with
  | Some names =>
      if existsb (fun name => str_eqb (toLowerCase name) lower) names
      then true
      else includes lower (toLowerCase (pattern rule))
  | None => includes lower (toLowerCase (pattern rule))
  end.

Definition applyRiskRules (ingredients : list jsstring)
    (rules : list RiskRule) : table (list RiskRule) :=
  fold_left
    (fun result ingredient =>
       let lower := toLowerCase ingredient in
       match filter (rule_applies lower) rules with
       | [] => result
       | hit :: hits => assign result ingredient (hit :: hits)
       end)
    ingredients [].

Definition shouldFetchExternally (settings : lookup_settings) : bool :=
  str_eqb (toLowerCase (Explain.or_empty (WEB_FETCH_ENABLED settings)))
    (lit "true").

(** Two more functions of the runtime: [encodeURIComponent], which raises
    a URIError on a lone surrogate ([None]), and the conversion of a
    string by [Number]. *)
Variable encodeURIComponent : jsstring -> option jsstring.
Variable Number_of_string : jsstring -> number.

(** [Math.min(ingredients.length, Number(process.env.OFF_FETCH_LIMIT || 3))] *)
Definition fetch_limit (settings : lookup_settings) (count : nat) : number :=
  Math_min (of_Z (Z.of_nat count))
    (match OFF_FETCH_LIMIT settings with
     | Some (c :: s) => Number_of_string (c :: s)
     | _ => of_Z 3
     end).

Definition baseDomain (domain : Ocr.Domain) : jsstring :=
  match domain with
  | Ocr.cosmetic => lit "world.openbeautyfacts.org"
  | _ => lit "world.openfoodfacts.org"
  end.

Definition search_url (domain : Ocr.Domain) (encoded : jsstring) : jsstring :=
  lit "https://" ++ baseDomain domain ++ lit "/cgi/search.pl?search_terms="
  ++ encoded ++ lit "&search_simple=1&json=1&page_size=1".

(** The loop of [fetchExternalRecords] from [index] on, [remaining] being
    the ingredients from that index on.  The limit never exceeds the
    number of ingredients, so the test on the index fails at the latest
    when they are exhausted.  The encoding is outside the [try] block, the
    lookup inside. *)
Fixpoint lookups (domain : Ocr.Domain) (limit : number) (index : Z)
    (remaining : list jsstring) (records : list ExternalRecord)
  : M (list ExternalRecord) :=
  match remaining with
  | [] => ret records
  | item :: rest =>
      if ltb (of_Z index) limit then
        match encodeURIComponent item with
        | None => throw (Rejected (lit "URIError") (lit "URI malformed"))
        | Some encoded =>
            records' <-
              try_catch
                (found <- FetchJson.fetch_json (search_url domain encoded)
                            [(lit "User-Agent", lit "Lablr-Agent")] ;;
                 ret (records ++ [{| ingredient := item;
                                     source := baseDomain domain;
                                     data := found |}]))
                (fun _ => ret records) ;;
            lookups domain limit (index + 1) rest records'
        end
      else ret records
  end.

Definition fetchExternalRecords (settings : lookup_settings)
    (ingredients : list jsstring) (domain : Ocr.Domain)
  : M (list ExternalRecord) :=
  if negb (shouldFetchExternally settings) || (length ingredients =? 0)%nat
  then ret []
  else lookups domain (fetch_limit settings (length ingredients)) 0
         ingredients [].

End WithRuntime.
End ExplainContext.

(** ** The page: the badge and the progress steps *)

Module Page.

Inductive StepKey := ocr | analysis | explanation.
Inductive StepStatus := pending | active | complete.

Record Step := {
  key : StepKey;
  label : jsstring;
  status : StepStatus;
  description : jsstring
}.

Definition StepKey_eqb (a b : StepKey) : bool :=
  match a, b with
  | ocr, ocr | analysis, analysis | explanation, explanation => true
  | _, _ => false
  end.

(** The function given to [setSteps] by [updateStep(key, status,
    description)]; [None] is a description left out. *)
Definition updateStep (k : StepKey) (st : StepStatus)
    (descr : option jsstring) (prev : list Step) : list Step :=
  map (fun step =>
         if StepKey_eqb (key step) k then
           {| key := key step;
              label := label step;
              status := st;
              description :=
                match descr with
                | Some d => d
                | None => description step
                end |}
         else step) prev.

Definition priority (r : Explain.RiskLevel) : Z :=
  match r with
  | Explain.Red => 3
  | Explain.Yellow => 2
  | Explain.Green => 1
  | Explain.Unknown => 0
  end.

(** [latestRiskBadge]: [None] is [null]. *)
Definition latestRiskBadge (items : list Explain.ExplanationItem)
  : option Explain.ExplanationItem :=
  match items with
  | [] => None
  | _ :: _ =>
      fold_left
        (fun current item =>
           match current with
           | None => Some item
           | Some c =>
               if (priority (Explain.risk_level c)
                   <? priority (Explain.risk_level item))%Z
               then Some item
               else Some c
           end)
        items None
  end.

(** [Math.round(x)] for a finite [x]: the integer closest to it, the
    greater one of two; a result of zero keeps the sign of [x]. *)
Definition Math_round (x : number) : number :=
  match x with
  | S754_finite s _ _ =>
      match to_Q x with
      | Some q =>
          match Qfloor (q + (1 # 2)) with
          | Z0 => S754_zero s
          | n => of_Z n
          end
      | None => x
      end
  | _ => x
  end.

(** [Math.round(ocrResult.confidence * 100)] *)
Definition confidence_percent (confidence : number) : number :=
  Math_round (SFmul prec emax confidence (of_Z 100)).

End Page.

(** ** The wording of the specification

    Definitions that follow the text of the specification rather than the
    code, to be compared with the code. *)

Module Wording.

(** The strings of a list, the other elements skipped. *)
Fixpoint strings_of (l : list value) : list jsstring :=
  match l with
  | [] => []
  | VStr s :: rest => s :: strings_of rest
  | _ :: rest => strings_of rest
  end.

Section WithCase.
Context `{CaseMapping}.

(** Every fragment between separators, trimmed and lowercased, the empty
    ones discarded. *)
Definition fragments (s : jsstring) : list jsstring :=
  filter nonempty (map (fun f => toLowerCase (trim f)) (split_on is_sep s)).

(** A normalized ingredient: not empty, free of separators, without white
    space at either end, and lowercase. *)
Definition normal_ingredient (s : jsstring) : Prop :=
  s <> [] /\ (forall c, In c s -> is_sep c = false)
  /\ trim s = s /\ toLowerCase s = s.

End WithCase.

(** A number of the interval from 0 to 1. *)
Definition in_unit_interval (x : number) : Prop :=
  exists q, to_Q x = Some q /\ (0 <= q <= 1)%Q.

(** [k] thousandths is [q] rounded to three decimals, halves upwards. *)
Definition rounds_to (q : Q) (k : Z) : Prop :=
  (inject_Z k <= 1000 * q + (1 # 2) /\ 1000 * q + (1 # 2) < inject_Z (k + 1))%Q.

(** An object of the language: a record or an array. *)
Definition is_object (v : value) : bool :=
  match v with
  | VObj _ | VArr _ => true
  | _ => false
  end.

(** The four literals of a risk level. *)
Definition risk_text (r : Explain.RiskLevel) : jsstring :=
  match r with
  | Explain.Green => lit "Green"
  | Explain.Yellow => lit "Yellow"
  | Explain.Red => lit "Red"
  | Explain.Unknown => lit "Unknown"
  end.

(** The risk level a value spells, if any. *)
Definition risk_of (v : value) : option Explain.RiskLevel :=
  match v with
  | VStr s =>
      find (fun r => str_eqb s (risk_text r))
        [Explain.Green; Explain.Yellow; Explain.Red; Explain.Unknown]
  | _ => None
  end.

Definition text_of (v : value) (default : jsstring) : jsstring :=
  match v with
  | VStr s => s
  | _ => default
  end.

Definition list_of (v : value) : list value :=
  match v with
  | VArr l => l
  | _ => []
  end.

(** The Explanation Item of an object, field by field as the specification
    lists them. *)
Definition item_of (entry : value) : Explain.ExplanationItem := {|
  Explain.name := text_of (get entry "name") (lit "Unknown");
  Explain.function := text_of (get entry "function") [];
  Explain.risk_level :=
    match risk_of (get entry "risk_level") with
    | Some r => r
    | None => Explain.Unknown
    end;
  Explain.why := text_of (get entry "why") [];
  Explain.certainty := Explain.normalizeCertainty (get entry "certainty");
  Explain.sources :=
    filter (fun s => nonempty (trim s))
      (strings_of (list_of (get entry "sources")))
|}.

(** The world after the requests [reqs] were sent and answered, [rest]
    being the replies still to come. *)
Definition after (w : world) (reqs : list request) (rest : list reply) : world :=
  {| pending := rest; sent := sent w ++ reqs |}.

(** Results written back as documents, the way [JSON.stringify] followed
    by [JSON.parse] presents them: an absent field is left out. *)
Definition domain_text (d : Ocr.Domain) : jsstring :=
  match d with
  | Ocr.food => lit "food"
  | Ocr.drug => lit "drug"
  | Ocr.cosmetic => lit "cosmetic"
  | Ocr.mixed => lit "mixed"
  end.

Definition sections_value (s : Ocr.Sections) : value :=
  VObj (match Ocr.warnings s with
        | Some w => [(lit "warnings", VStr w)]
        | None => []
        end
        ++ match Ocr.claims s with
           | Some cs => [(lit "claims", VArr (map VStr cs))]
           | None => []
           end).

Definition result_value (r : Ocr.OCRResult) : value :=
  VObj [(lit "domain_guess", VStr (domain_text (Ocr.domain_guess r)));
        (lit "ingredients", VArr (map VStr (Ocr.ingredients r)));
        (lit "sections", sections_value (Ocr.sections r));
        (lit "confidence", VNum (Ocr.confidence r));
        (lit "language", VStr (Ocr.language r))].

Definition item_value (it : Explain.ExplanationItem) : value :=
  VObj [(lit "name", VStr (Explain.name it));
        (lit "function", VStr (Explain.function it));
        (lit "risk_level", VStr (risk_text (Explain.risk_level it)));
        (lit "why", VStr (Explain.why it));
        (lit "certainty", VNum (Explain.certainty it));
        (lit "sources", VArr (map VStr (Explain.sources it)))].

(** A host name that is one of the allowed domains or ends with a dot
    followed by one of them. *)
Definition allowed_host (hostname : jsstring) : Prop :=
  exists domain,
    In domain FetchJson.WHITELIST
    /\ (hostname = domain
        \/ exists sub, hostname = sub ++ lit "." ++ domain).


End Wording.

(** * Properties *)

(** ** Strings *)

Module JsStringFacts.

Lemma str_eqb_spec a b : reflect (a = b) (str_eqb a b).
Proof.
  revert b; induction a as [|x a IH]; intros [|y b]; simpl;
    try (constructor; congruence).
  destruct (N.eqb_spec x y) as [->|Hxy]; simpl.
  - destruct (IH b) as [->|Hab]; constructor; congruence.
  - constructor; congruence.
Qed.

Lemma str_eqb_refl a : str_eqb a a = true.
Proof. destruct (str_eqb_spec a a); congruence. Qed.

Lemma str_eqb_eq a b : str_eqb a b = true <-> a = b.
Proof. destruct (str_eqb_spec a b); split; congruence. Qed.

Lemma str_eqb_neq a b : str_eqb a b = false <-> a <> b.
Proof. destruct (str_eqb_spec a b); split; congruence. Qed.

Lemma nonempty_true s : nonempty s = true <-> s <> [].
Proof. destruct s; simpl; split; congruence. Qed.

(** *** Trimming *)

(** A string that does not begin with a character satisfying [p]. *)
Definition clean_head (p : unit16 -> bool) (s : jsstring) : Prop :=
  match s with
  | [] => True
  | c :: _ => p c = false
  end.

Lemma dropWhile_clean p s : clean_head p (dropWhile p s).
Proof.
  induction s as [|c s IH]; simpl; [exact I|].
  destruct (p c) eqn:E; [exact IH | exact E].
Qed.

Lemma dropWhile_id p s : clean_head p s -> dropWhile p s = s.
Proof. destruct s as [|c s]; simpl; [reflexivity|]. intros ->. reflexivity. Qed.

Lemma dropWhile_In p s c : In c (dropWhile p s) -> In c s.
Proof.
  induction s as [|d s IH]; simpl; [tauto|].
  destruct (p d); simpl; tauto.
Qed.

Lemma dropWhile_snoc p s c :
  p c = false -> exists s', dropWhile p (s ++ [c]) = s' ++ [c].
Proof.
  intros Hc. induction s as [|d s IH]; simpl.
  - rewrite Hc. exists []. reflexivity.
  - destruct (p d); [exact IH|]. exists (d :: s). reflexivity.
Qed.

(** Trimming the end leaves a clean beginning clean. *)
Lemma trimEnd_clean s : clean_head is_ws s -> clean_head is_ws (trimEnd s).
Proof.
  destruct s as [|c s]; simpl; intros Hc; [exact I|].
  unfold trimEnd. simpl rev.
  destruct (dropWhile_snoc is_ws (rev s) c Hc) as [s' ->].
  rewrite rev_app_distr. simpl. exact Hc.
Qed.

Lemma trimEnd_idem s : trimEnd (trimEnd s) = trimEnd s.
Proof.
  unfold trimEnd. rewrite rev_involutive.
  rewrite (dropWhile_id is_ws (dropWhile is_ws (rev s))); [reflexivity|].
  apply dropWhile_clean.
Qed.

Lemma trim_idem s : trim (trim s) = trim s.
Proof.
  unfold trim at 1. unfold trimStart.
  rewrite dropWhile_id.
  - unfold trim. apply trimEnd_idem.
  - unfold trim. apply trimEnd_clean, dropWhile_clean.
Qed.

Lemma trim_In s c : In c (trim s) -> In c s.
Proof.
  unfold trim, trimEnd, trimStart. intros Hin.
  apply in_rev in Hin. apply dropWhile_In in Hin.
  apply in_rev in Hin. apply dropWhile_In in Hin. exact Hin.
Qed.

Lemma dropWhile_map p f s :
  (forall c, p (f c) = p c) ->
  dropWhile p (map f s) = map f (dropWhile p s).
Proof.
  intros Hpf. induction s as [|c s IH]; simpl; [reflexivity|].
  rewrite Hpf. destruct (p c); [exact IH | reflexivity].
Qed.

Lemma trim_map f s :
  (forall c, is_ws (f c) = is_ws c) -> trim (map f s) = map f (trim s).
Proof.
  intros Hf. unfold trim, trimEnd, trimStart.
  rewrite (dropWhile_map is_ws f s Hf), <- map_rev.
  rewrite (dropWhile_map is_ws f _ Hf), map_rev. reflexivity.
Qed.

(** *** Splitting *)

Lemma split_on_nonnil p s : split_on p s <> [].
Proof.
  destruct s as [|c s]; simpl; [discriminate|].
  destruct (p c); [discriminate|].
  destruct (split_on p s); discriminate.
Qed.

(** Cutting at one class and then at another is cutting at their union. *)
Lemma split_on_twice p q s :
  flat_map (split_on q) (split_on p s)
  = split_on (fun c => p c || q c) s.
Proof.
  induction s as [|c s IH]; simpl; [reflexivity|].
  destruct (p c) eqn:Ep; simpl.
  - rewrite IH. reflexivity.
  - destruct (split_on p s) as [|f fs] eqn:Es.
    + exfalso. exact (split_on_nonnil p s Es).
    + simpl in IH. simpl. rewrite <- IH.
      destruct (q c) eqn:Eq; simpl; [reflexivity|].
      destruct (split_on q f) as [|g gs] eqn:Eg.
      * exfalso. exact (split_on_nonnil q f Eg).
      * reflexivity.
Qed.

(** No piece contains a separator, and every character of a piece is a
    character of the string. *)
Lemma split_on_pieces p s f c :
  In f (split_on p s) -> In c f -> p c = false /\ In c s.
Proof.
  revert f. induction s as [|d s IH]; simpl; intros f Hf Hc.
  - destruct Hf as [<-|[]]. destruct Hc.
  - destruct (p d) eqn:Ed.
    + destruct Hf as [<-|Hf]; [destruct Hc|].
      destruct (IH f Hf Hc). tauto.
    + destruct (split_on p s) as [|g gs] eqn:Es.
      * destruct Hf as [<-|[]]. destruct Hc as [<-|[]]. tauto.
      * destruct Hf as [<-|Hf].
        -- destruct Hc as [<-|Hc]; [tauto|].
           destruct (IH g (or_introl eq_refl) Hc). tauto.
        -- destruct (IH f (or_intror Hf) Hc). tauto.
Qed.

(** A string without separators is its only piece. *)
Lemma split_on_none p s :
  (forall c, In c s -> p c = false) -> split_on p s = [s].
Proof.
  induction s as [|d s IH]; simpl; intros Hs; [reflexivity|].
  rewrite (Hs d (or_introl eq_refl)).
  rewrite IH; [reflexivity|]. intros c Hc. apply Hs. right. exact Hc.
Qed.

(** *** The insertion-ordered set *)

Lemma set_has_In seen x : set_has seen x = true <-> In x seen.
Proof.
  unfold set_has. rewrite existsb_exists. split.
  - intros [y [Hy Heq]]. apply str_eqb_eq in Heq. subst. exact Hy.
  - intros Hx. exists x. split; [exact Hx | apply str_eqb_refl].
Qed.

Lemma filter_filter_absorb (seen : list jsstring) x l :
  set_has seen x = true ->
  filter (fun y => negb (set_has seen y))
    (filter (fun y => negb (str_eqb x y)) l)
  = filter (fun y => negb (set_has seen y)) l.
Proof.
  intros Hx. induction l as [|y l IH]; simpl; [reflexivity|].
  destruct (str_eqb_spec x y) as [->|Hxy]; simpl.
  - rewrite Hx. simpl. exact IH.
  - destruct (set_has seen y); simpl; rewrite IH; reflexivity.
Qed.

Lemma set_has_snoc seen x y :
  set_has (seen ++ [x]) y = set_has seen y || str_eqb y x.
Proof.
  unfold set_has. rewrite existsb_app. simpl.
  rewrite orb_false_r. reflexivity.
Qed.

Lemma str_eqb_sym a b : str_eqb a b = str_eqb b a.
Proof.
  destruct (str_eqb_spec a b), (str_eqb_spec b a); congruence.
Qed.

(** Adding the elements of [l] to a set [seen] appends, in the order of
    their first occurrence, those that [seen] lacks. *)
Lemma fold_set_add l : forall seen,
  fold_left set_add l seen
  = seen ++ filter (fun y => negb (set_has seen y)) (first_seen l).
Proof.
  induction l as [|x l IH]; intros seen; simpl.
  - rewrite app_nil_r. reflexivity.
  - rewrite IH. unfold set_add. destruct (set_has seen x) eqn:Ex; simpl.
    + rewrite filter_filter_absorb by exact Ex. reflexivity.
    + rewrite <- app_assoc. simpl. f_equal. f_equal.
      clear IH. induction (first_seen l) as [|y r IHr]; simpl; [reflexivity|].
      rewrite set_has_snoc, (str_eqb_sym y x).
      destruct (str_eqb x y); simpl.
      * rewrite orb_true_r. simpl. exact IHr.
      * rewrite orb_false_r.
        destruct (set_has seen y); simpl; rewrite IHr; reflexivity.
Qed.

Lemma dedup_first_seen l : dedup l = first_seen l.
Proof.
  unfold dedup. rewrite fold_set_add. simpl.
  induction (first_seen l) as [|y r IH]; simpl; congruence.
Qed.

Lemma first_seen_In l x : In x (first_seen l) <-> In x l.
Proof.
  induction l as [|y l IH]; simpl; [tauto|].
  rewrite filter_In, IH. split.
  - intros [H|[H _]]; tauto.
  - intros [H|H]; [tauto|].
    destruct (str_eqb_spec y x); [left; assumption | right; split; auto].
Qed.

Lemma first_seen_NoDup l : NoDup (first_seen l).
Proof.
  induction l as [|y l IH]; simpl; constructor.
  - rewrite filter_In, str_eqb_refl. simpl. intros [_ ?]; discriminate.
  - apply NoDup_filter. exact IH.
Qed.

Lemma first_seen_fixed l : NoDup l -> first_seen l = l.
Proof.
  induction 1 as [|x l Hx Hl IH]; simpl; [reflexivity|].
  rewrite IH. f_equal.
  clear IH Hl. induction l as [|y l IH]; simpl; [reflexivity|].
  destruct (str_eqb_spec x y) as [->|Hxy]; simpl.
  - exfalso. apply Hx. left. reflexivity.
  - f_equal. apply IH. intros Hin. apply Hx. right. exact Hin.
Qed.

Lemma dedup_In l x : In x (dedup l) <-> In x l.
Proof. rewrite dedup_first_seen. apply first_seen_In. Qed.

Lemma dedup_NoDup l : NoDup (dedup l).
Proof. rewrite dedup_first_seen. apply first_seen_NoDup. Qed.

Lemma dedup_fixed l : NoDup l -> dedup l = l.
Proof. rewrite dedup_first_seen. apply first_seen_fixed. Qed.

End JsStringFacts.
Import JsStringFacts.

(** ** The case tables restricted to ASCII

    The conversion that lowers [A-Z] and leaves every other code unit alone
    satisfies the four facts assumed of [toLowerCase]. *)

Module AsciiCase.

Local Open Scope N_scope.

Lemma is_ws_range c : is_ws c = true -> c <= 32 \/ 160 <= c.
Proof.
  unfold is_ws.
  repeat rewrite orb_true_iff. repeat rewrite andb_true_iff.
  repeat rewrite N.leb_le. repeat rewrite N.eqb_eq. lia.
Qed.

Lemma is_sep_cases c : is_sep c = true -> c = 10 \/ c = 8226 \/ c = 59 \/ c = 44.
Proof.
  unfold is_sep, is_line_sep, is_item_sep.
  repeat rewrite orb_true_iff. repeat rewrite N.eqb_eq. tauto.
Qed.

Lemma ascii_lower_cases c :
  (65 <= c <= 90 /\ ascii_lower c = c + 32) \/
  ((c < 65 \/ 90 < c) /\ ascii_lower c = c).
Proof.
  unfold ascii_lower.
  destruct (N.leb_spec 65 c), (N.leb_spec c 90); simpl; lia.
Qed.

Lemma ascii_lower_idem c : ascii_lower (ascii_lower c) = ascii_lower c.
Proof.
  destruct (ascii_lower_cases c) as [[Hc ->]|[Hc ->]].
  - destruct (ascii_lower_cases (c + 32)) as [[Hd _]|[_ ->]]; [lia|reflexivity].
  - destruct (ascii_lower_cases c) as [[Hd _]|[_ ->]]; [lia|reflexivity].
Qed.

Lemma ascii_lower_ws c : is_ws (ascii_lower c) = is_ws c.
Proof.
  destruct (ascii_lower_cases c) as [[Hc ->]|[Hc ->]]; [|reflexivity].
  destruct (is_ws (c + 32)) eqn:E1, (is_ws c) eqn:E2; try reflexivity;
    try (apply is_ws_range in E1); try (apply is_ws_range in E2); lia.
Qed.

Lemma ascii_lower_sep c : is_sep (ascii_lower c) = true -> ascii_lower c = c.
Proof.
  intros Hs. apply is_sep_cases in Hs.
  destruct (ascii_lower_cases c) as [[Hc E]|[Hc E]]; [|exact E].
  rewrite E in Hs. lia.
Qed.

Definition lower (s : jsstring) : jsstring := map ascii_lower s.

Lemma map_lower_idem s : lower (lower s) = lower s.
Proof.
  unfold lower. rewrite map_map. apply map_ext. apply ascii_lower_idem.
Qed.

Lemma map_lower_sep s c : is_sep c = true -> In c (lower s) -> In c s.
Proof.
  unfold lower. intros Hs Hin. apply in_map_iff in Hin.
  destruct Hin as [d [Hd Hin]]. subst c.
  rewrite (ascii_lower_sep d Hs). exact Hin.
Qed.

Lemma map_lower_trim s : trim s = s -> trim (lower s) = lower s.
Proof.
  unfold lower. intros Hs.
  rewrite (trim_map ascii_lower s ascii_lower_ws), Hs. reflexivity.
Qed.

#[local] Instance ascii_case : CaseMapping := {|
  toLowerCase := lower;
  lower_ascii := fun s _ => eq_refl;
  lower_idem := map_lower_idem;
  lower_sep := map_lower_sep;
  lower_trim := map_lower_trim
|}.

End AsciiCase.

(** ** A small runtime, for running the clients on concrete scripts

    Its JSON parser knows two texts: [payload], a chat completion whose
    message content is the text [content], and [content], an explanation
    whose summary and disclaimer are empty strings.  Its URL parser reads
    the host of an [https] URL. *)

Module Demo.

Definition chat_payload (content : jsstring) : value :=
  VObj [(lit "choices",
         VArr [VObj [(lit "message",
                      VObj [(lit "content", VStr content)])]])].

Definition empty_texts : value :=
  VObj [(lit "summary", VStr []); (lit "disclaimer", VStr [])].

Definition parse (s : jsstring) : option value :=
  if str_eqb s (lit "payload") then Some (chat_payload (lit "content"))
  else if str_eqb s (lit "content") then Some empty_texts
  else None.

Fixpoint until_slash (s : jsstring) : jsstring :=
  match s with
  | [] => []
  | c :: t => if (c =? 47)%N then [] else c :: until_slash t
  end.

Definition hostname (url : jsstring) : option jsstring :=
  if startsWith url (lit "https://")
  then Some (until_slash (skipn 8 url))
  else None.

#[local] Instance runtime : Runtime := {|
  JSON_parse := parse;
  URL_hostname := hostname;
  case_mapping := AsciiCase.ascii_case
|}.

Definition env : environment := {|
  INTERFAZE_API_BASE := None;
  INTERFAZE_API_KEY := Some (lit "key");
  INTERFAZE_OCR_MODEL := Some (lit "ocr-model");
  INTERFAZE_EXPLAIN_MODEL := Some (lit "explain-model");
  NODE_ENV := None
|}.

Definition success : response := {|
  status := 200;
  statusText := lit "OK";
  contentType := Some (lit "application/json");
  body := Some (lit "payload")
|}.


Definition script (replies : list reply) : world :=
  {| pending := replies; sent := [] |}.

End Demo.

(** ** Ingredient lists *)

Module OcrIngredients.
Import Ocr Wording.
Section WithRuntime.
Context `{Runtime}.

Lemma splits_fragments entry : splits entry = fragments entry.
Proof.
  unfold splits, fragments. rewrite split_on_twice. reflexivity.
Qed.

Lemma collect_strings l : collect l = flat_map fragments (strings_of l).
Proof.
  induction l as [|v l IH]; simpl; [reflexivity|].
  destruct v; simpl; try exact IH.
  rewrite IH, splits_fragments. reflexivity.
Qed.

Lemma toLowerCase_nil : toLowerCase [] = [].
Proof. apply (lower_ascii []). reflexivity. Qed.

Lemma fragments_normal entry s : In s (fragments entry) -> normal_ingredient s.
Proof.
  unfold fragments. rewrite filter_In, in_map_iff.
  intros [[f [Hs Hf]] Hne]. subst s.
  repeat split.
  - apply nonempty_true. exact Hne.
  - intros c Hc. destruct (is_sep c) eqn:Ec; [|reflexivity].
    apply (lower_sep _ c Ec) in Hc. apply trim_In in Hc.
    destruct (split_on_pieces is_sep entry f c Hf Hc) as [Hno _].
    congruence.
  - apply lower_trim. apply trim_idem.
  - apply lower_idem.
Qed.

Lemma fragments_fixed s : normal_ingredient s -> fragments s = [s].
Proof.
  intros (Hne & Hsep & Htrim & Hlow). unfold fragments.
  rewrite (split_on_none is_sep s Hsep). simpl.
  rewrite Htrim, Hlow.
  destruct s; [congruence | reflexivity].
Qed.

Lemma collect_normal l s : In s (collect l) -> normal_ingredient s.
Proof.
  rewrite collect_strings, in_flat_map.
  intros [e [_ Hs]]. exact (fragments_normal e s Hs).
Qed.

Lemma collect_fixed l :
  Forall normal_ingredient l -> collect (map VStr l) = l.
Proof.
  induction 1 as [|s l Hs Hl IH]; simpl; [reflexivity|].
  rewrite splits_fragments, (fragments_fixed Hs), IH. reflexivity.
Qed.

Lemma normalizeIngredients_cases raw :
  normalizeIngredients raw = [] \/
  exists items, normalizeIngredients raw = dedup (collect items).
Proof.
  unfold normalizeIngredients. destruct (falsy raw); [left; reflexivity|].
  right. eexists. reflexivity.
Qed.

Lemma normalizeIngredients_normal raw :
  Forall normal_ingredient (normalizeIngredients raw).
Proof.
  destruct (normalizeIngredients_cases raw) as [->|[items ->]];
    [constructor|].
  apply Forall_forall. intros s Hs.
  apply (proj1 (dedup_In _ _)) in Hs.
  exact (collect_normal items s Hs).
Qed.

Lemma normalizeIngredients_NoDup raw : NoDup (normalizeIngredients raw).
Proof.
  destruct (normalizeIngredients_cases raw) as [->|[items ->]];
    [constructor | apply dedup_NoDup].
Qed.

Lemma normalizeIngredients_idem raw :
  normalizeIngredients (VArr (map VStr (normalizeIngredients raw)))
  = normalizeIngredients raw.
Proof.
  unfold normalizeIngredients at 1. simpl.
  rewrite (collect_fixed (normalizeIngredients_normal raw)).
  apply dedup_fixed, normalizeIngredients_NoDup.
Qed.

End WithRuntime.
End OcrIngredients.

(** ** Numbers *)

Module JsNumberFacts.
Import Wording.

Definition sf_eqb (x y : number) : bool :=
  match x, y with
  | S754_zero a, S754_zero b => Bool.eqb a b
  | S754_infinity a, S754_infinity b => Bool.eqb a b
  | S754_nan, S754_nan => true
  | S754_finite a m e, S754_finite b n f =>
      Bool.eqb a b && Pos.eqb m n && Z.eqb e f
  | _, _ => false
  end.

Lemma sf_eqb_eq x y : sf_eqb x y = true -> x = y.
Proof.
  destruct x, y; simpl; try discriminate; try reflexivity.
  - intros E. apply Bool.eqb_prop in E. congruence.
  - intros E. apply Bool.eqb_prop in E. congruence.
  - rewrite !andb_true_iff. intros [[E1 E2] E3].
    apply Bool.eqb_prop in E1. apply Pos.eqb_eq in E2. apply Z.eqb_eq in E3.
    congruence.
Qed.

Lemma finite_positive m e : (0 < 1 * inject_Z (Zpos m) * 2 ^ e)%Q.
Proof.
  apply Qmult_lt_0_compat.
  - unfold Qlt; simpl; lia.
  - apply Qpower_0_lt. reflexivity.
Qed.

Lemma finite_negative m e : (- (1) * inject_Z (Zpos m) * 2 ^ e < 0)%Q.
Proof.
  assert (Hp := finite_positive m e).
  setoid_replace (- (1) * inject_Z (Z.pos m) * 2 ^ e)%Q
    with (- (1 * inject_Z (Z.pos m) * 2 ^ e))%Q by ring.
  apply (Qopp_lt_compat 0) in Hp. exact Hp.
Qed.

Definition one_Q : Q := (1 * inject_Z 4503599627370496 * 2 ^ (-52))%Q.

Lemma to_Q_one : to_Q one = Some one_Q.
Proof. reflexivity. Qed.

Lemma one_Q_value : (one_Q == 1)%Q.
Proof. vm_compute. reflexivity. Qed.

(** What passes the three tests of the confidence normalizer is a finite
    number between 0 and 1. *)
Lemma passes_tests x :
  isNaN x = false -> ltb x zero = false -> ltb one x = false ->
  exists q, to_Q x = Some q /\ (0 <= q <= 1)%Q.
Proof.
  intros Hnan Hneg Hbig. destruct x as [s|s| |s m e].
  - exists 0%Q. split; [reflexivity|]. split; [apply Qle_refl|discriminate].
  - destruct s; discriminate.
  - discriminate.
  - destruct s.
    + exfalso.
      change (ltb (S754_finite true m e) zero)
        with (match (- (1) * inject_Z (Zpos m) * 2 ^ e ?= 0)%Q with
              | Lt => true
              | _ => false
              end) in Hneg.
      rewrite (proj1 (Qlt_alt _ _) (finite_negative m e)) in Hneg.
      discriminate.
    + eexists. split; [reflexivity|]. split.
      * apply Qlt_le_weak, finite_positive.
      * change (ltb one (S754_finite false m e))
          with (match (one_Q ?= 1 * inject_Z (Zpos m) * 2 ^ e)%Q with
                | Lt => true
                | _ => false
                end) in Hbig.
        assert (Hle : (1 * inject_Z (Zpos m) * 2 ^ e <= one_Q)%Q).
        { destruct (one_Q ?= 1 * inject_Z (Zpos m) * 2 ^ e)%Q eqn:E.
          - apply Qeq_alt in E. rewrite <- E. apply Qle_refl.
          - discriminate.
          - apply Qgt_alt in E. apply Qlt_le_weak. exact E. }
        rewrite one_Q_value in Hle. exact Hle.
Qed.

Lemma toFixed3_rounds q : rounds_to q (toFixed3 q).
Proof.
  unfold rounds_to, toFixed3. split.
  - apply Qfloor_le.
  - apply Qlt_floor.
Qed.

Lemma toFixed3_range q : (0 <= q <= 1)%Q -> (0 <= toFixed3 q <= 1000)%Z.
Proof.
  intros [H0 H1]. unfold toFixed3. split.
  - change 0%Z with (Qfloor (1 # 2)). apply Qfloor_resp_le.
    setoid_replace (1 # 2)%Q with (1000 * 0 + (1 # 2))%Q at 1 by ring.
    apply Qplus_le_l. apply Qmult_le_l; [reflexivity | exact H0].
  - change 1000%Z with (Qfloor (1000 * 1 + (1 # 2))). apply Qfloor_resp_le.
    apply Qplus_le_l. apply Qmult_le_l; [reflexivity | exact H1].
Qed.

(** In range, [round3] is [toFixed(3)] read back. *)
Lemma round3_in_range x q :
  to_Q x = Some q -> (0 <= q <= 1)%Q ->
  round3 x = decimal (toFixed3 q) 1000.
Proof.
  intros Hx [H0 H1]. destruct x as [s|s| |s m e]; try discriminate.
  - injection Hx as <-. reflexivity.
  - destruct s.
    + exfalso. simpl in Hx. injection Hx as <-.
      apply (Qle_not_lt _ _ H0). apply finite_negative.
    + unfold round3. change (SFabs (S754_finite false m e))
        with (S754_finite false m e). rewrite Hx.
      destruct (Qle_bool (inject_Z (10 ^ 21)) q) eqn:E; [|reflexivity].
      exfalso. apply Qle_bool_iff in E.
      assert (Hbad : (inject_Z (10 ^ 21) <= 1)%Q) by (eapply Qle_trans; eassumption).
      clear -Hbad. unfold Qle in Hbad. simpl in Hbad. lia.
Qed.

(** The thousand and one results of [round3] in range: each is a number
    of the unit interval, within 2^-54 of its decimal, and is left alone
    by the normalizer. *)
Definition table_ok (k : Z) : bool :=
  let r := decimal k 1000 in
  sf_eqb (Ocr.normalizeConfidence (VNum r)) r &&
  match to_Q r with
  | Some q =>
      Qle_bool 0 q && Qle_bool q 1
      && Qle_bool (Qabs (q - (k # 1000))) (1 # 18014398509481984)
  | None => false
  end.

Lemma table_checked : forallb table_ok (map Z.of_nat (seq 0 1001)) = true.
Proof. vm_compute. reflexivity. Qed.

Lemma table_ok_range k : (0 <= k <= 1000)%Z -> table_ok k = true.
Proof.
  intros Hk. apply (proj1 (forallb_forall _ _) table_checked).
  apply in_map_iff. exists (Z.to_nat k). split; [lia|].
  apply in_seq. lia.
Qed.

Lemma thousandth_unit k :
  (0 <= k <= 1000)%Z -> in_unit_interval (decimal k 1000).
Proof.
  intros Hk. assert (Ht := table_ok_range Hk). unfold table_ok in Ht.
  apply andb_true_iff in Ht. destruct Ht as [_ Ht].
  unfold in_unit_interval. destruct (to_Q (decimal k 1000)) as [q|];
    [|discriminate].
  rewrite !andb_true_iff in Ht. destruct Ht as [[H0 H1] _].
  exists q. split; [reflexivity|]. split; apply Qle_bool_iff; assumption.
Qed.

Lemma thousandth_close k :
  (0 <= k <= 1000)%Z ->
  exists q, to_Q (decimal k 1000) = Some q
            /\ (Qabs (q - (k # 1000)) <= 1 # 18014398509481984)%Q.
Proof.
  intros Hk. assert (Ht := table_ok_range Hk). unfold table_ok in Ht.
  apply andb_true_iff in Ht. destruct Ht as [_ Ht].
  destruct (to_Q (decimal k 1000)) as [q|]; [|discriminate].
  rewrite !andb_true_iff in Ht. destruct Ht as [_ Hc].
  exists q. split; [reflexivity|]. apply Qle_bool_iff. exact Hc.
Qed.

Lemma thousandth_fixed k :
  (0 <= k <= 1000)%Z ->
  Ocr.normalizeConfidence (VNum (decimal k 1000)) = decimal k 1000.
Proof.
  intros Hk. assert (Ht := table_ok_range Hk). unfold table_ok in Ht.
  apply andb_true_iff in Ht. destruct Ht as [Ht _].
  apply sf_eqb_eq. exact Ht.
Qed.

End JsNumberFacts.
Import JsNumberFacts.

(** ** The ingredient normalizer: claims *)

Module IngredientClaims.
Import Ocr Wording OcrIngredients.
Section WithRuntime.
Context `{Runtime}.

Lemma fragments_ascii s :
  forallb is_ascii s = true ->
  fragments s
  = filter nonempty (map (fun f => map ascii_lower (trim f)) (split_on is_sep s)).
Proof.
  intros Hs. unfold fragments. f_equal. apply map_ext_in.
  intros f Hf. apply lower_ascii. apply forallb_forall.
  intros c Hc. apply trim_In in Hc.
  destruct (split_on_pieces is_sep s f c Hf Hc) as [_ Hin].
  exact (proj1 (forallb_forall _ _) Hs c Hin).
Qed.

Lemma normalizeIngredients_string s :
  normalizeIngredients (VStr s) = first_seen (fragments s).
Proof.
  unfold normalizeIngredients. destruct s as [|c s]; simpl falsy; cbv iota.
  - unfold fragments. simpl. rewrite toLowerCase_nil. reflexivity.
  - rewrite dedup_first_seen. simpl collect.
    rewrite app_nil_r, splits_fragments. reflexivity.
Qed.

Lemma normalizeIngredients_list l :
  normalizeIngredients (VArr l) = first_seen (flat_map fragments (strings_of l)).
Proof.
  unfold normalizeIngredients. simpl falsy. cbv iota.
  rewrite dedup_first_seen, collect_strings. reflexivity.
Qed.

Lemma normalizeIngredients_other raw :
  (forall s, raw <> VStr s) -> (forall l, raw <> VArr l) ->
  normalizeIngredients raw = [].
Proof.
  intros Hs Hl. unfold normalizeIngredients.
  destruct raw; try reflexivity;
    try (destruct (falsy _); reflexivity).
  - exfalso. exact (Hs s eq_refl).
  - exfalso. exact (Hl elems eq_refl).
Qed.

(** C3.  [normalizeIngredients] accepts a string or a list, and anything
    else yields the empty list; the strings of the input, the other
    elements of a list being skipped, are cut at line feeds, bullets,
    semicolons and commas, the fragments are trimmed and lowercased and
    the empty ones discarded, and of equal fragments only the first
    stays, in its place; the output has no duplicate and no empty
    string; the label text of the specification normalizes to water,
    sugar, artificial flavor. *)
Theorem normalizeIngredients_spec :
  (forall raw, (forall s, raw <> VStr s) -> (forall l, raw <> VArr l) ->
               normalizeIngredients raw = [])
  /\ (forall s, normalizeIngredients (VStr s) = first_seen (fragments s))
  /\ (forall l, normalizeIngredients (VArr l)
                = first_seen (flat_map fragments (strings_of l)))
  /\ (forall raw, NoDup (normalizeIngredients raw)
                  /\ ~ In [] (normalizeIngredients raw))
  /\ normalizeIngredients
       (VStr (lit "Water, Sugar" ++ [10%N] ++ lit "Artificial Flavor; Sugar"))
     = [lit "water"; lit "sugar"; lit "artificial flavor"].
Proof.
  split; [exact normalizeIngredients_other|].
  split; [exact normalizeIngredients_string|].
  split; [exact normalizeIngredients_list|].
  split.
  - intros raw. split; [apply normalizeIngredients_NoDup|].
    intros Hin.
    assert (Hn := proj1 (Forall_forall _ _) (normalizeIngredients_normal raw) [] Hin).
    destruct Hn as [Hne _]. exact (Hne eq_refl).
  - rewrite normalizeIngredients_string, fragments_ascii by reflexivity.
    vm_compute. reflexivity.
Qed.

(** C10.  Every string of the output of [normalizeIngredients] is free of
    the four separators, has no white space at either end, is lowercase,
    and is not empty. *)
Theorem normalized_ingredient_invariant raw :
  Forall (fun s =>
            (forall c, In c s -> is_sep c = false)
            /\ trim s = s /\ toLowerCase s = s /\ s <> [])
    (normalizeIngredients raw).
Proof.
  eapply Forall_impl; [|exact (normalizeIngredients_normal raw)].
  intros s (Hne & Hsep & Htrim & Hlow). tauto.
Qed.

End WithRuntime.

Lemma normalizeIngredients_spec_witness :
  @normalizeIngredients Demo.runtime (VNum one) = [].
Proof.
  apply (proj1 (@normalizeIngredients_spec Demo.runtime)); discriminate.
Defined.

End IngredientClaims.

(** ** Confidence and certainty: claims *)

Module ConfidenceClaims.
Import Ocr Wording.

Lemma normalizeCertainty_same v :
  Explain.normalizeCertainty v = normalizeConfidence v.
Proof. reflexivity. Qed.

Lemma positive_not_below_zero m e : ltb (S754_finite false m e) zero = false.
Proof.
  change (ltb (S754_finite false m e) zero)
    with (match (1 * inject_Z (Zpos m) * 2 ^ e ?= 0)%Q with
          | Lt => true
          | _ => false
          end).
  destruct (1 * inject_Z (Zpos m) * 2 ^ e ?= 0)%Q eqn:E; try reflexivity.
  exfalso. apply Qlt_alt in E.
  exact (Qlt_irrefl _ (Qlt_trans _ _ _ E (finite_positive m e))).
Qed.

(** What is greater than one is neither NaN nor negative. *)
Lemma above_one x : ltb one x = true -> isNaN x = false /\ ltb x zero = false.
Proof.
  intros Hx. destruct x as [s|s| |s m e]; try discriminate.
  - destruct s; [discriminate|]. split; reflexivity.
  - destruct s; [|split; [reflexivity | apply positive_not_below_zero]].
    exfalso.
    change (ltb one (S754_finite true m e))
      with (match (one_Q ?= - (1) * inject_Z (Zpos m) * 2 ^ e)%Q with
            | Lt => true
            | _ => false
            end) in Hx.
    destruct (one_Q ?= - (1) * inject_Z (Zpos m) * 2 ^ e)%Q eqn:E;
      try discriminate.
    apply Qlt_alt in E. rewrite one_Q_value in E.
    assert (Hn := finite_negative m e).
    assert (Hbad : (1 < 0)%Q) by (eapply Qlt_trans; eassumption).
    discriminate Hbad.
Qed.

Lemma normalizeConfidence_number x :
  normalizeConfidence (VNum x)
  = if isNaN x then zero
    else if ltb x zero then zero
    else if ltb one x then one
    else round3 x.
Proof. reflexivity. Qed.

Lemma normalizeConfidence_in_range x q :
  to_Q x = Some q -> (0 <= q <= 1)%Q ->
  normalizeConfidence (VNum x) = decimal (toFixed3 q) 1000.
Proof.
  intros Hx Hq. rewrite normalizeConfidence_number.
  rewrite <- (round3_in_range x Hx Hq).
  destruct x as [s|s| |s m e]; try discriminate.
  - reflexivity.
  - destruct Hq as [H0 H1]. simpl in Hx. injection Hx as Hx.
    destruct s.
    + exfalso. rewrite <- Hx in H0.
      apply (Qle_not_lt _ _ H0). apply finite_negative.
    + simpl isNaN. cbv iota.
      rewrite positive_not_below_zero.
      replace (ltb one (S754_finite false m e)) with false; [reflexivity|].
      symmetry.
      change (ltb one (S754_finite false m e))
        with (match (one_Q ?= 1 * inject_Z (Zpos m) * 2 ^ e)%Q with
              | Lt => true
              | _ => false
              end).
      destruct (one_Q ?= 1 * inject_Z (Zpos m) * 2 ^ e)%Q eqn:E;
        try reflexivity.
      exfalso. apply Qlt_alt in E. rewrite one_Q_value, Hx in E.
      exact (Qle_not_lt _ _ H1 E).
Qed.

(** Every result is some number of thousandths, read as a decimal. *)
Lemma normalizeConfidence_thousandths v :
  exists k, (0 <= k <= 1000)%Z /\ normalizeConfidence v = decimal k 1000.
Proof.
  assert (Hzero : exists k, (0 <= k <= 1000)%Z /\ zero = decimal k 1000)
    by (exists 0%Z; split; [lia | reflexivity]).
  destruct v; try exact Hzero.
  rewrite normalizeConfidence_number.
  destruct (isNaN x) eqn:Enan; [exact Hzero|].
  destruct (ltb x zero) eqn:Eneg; [exact Hzero|].
  destruct (ltb one x) eqn:Ebig.
  - exists 1000%Z. split; [lia | reflexivity].
  - destruct (passes_tests x Enan Eneg Ebig) as [q [Hx Hq]].
    exists (toFixed3 q). split; [exact (toFixed3_range Hq)|].
    exact (round3_in_range x Hx Hq).
Qed.

(** C4.  [normalizeConfidence] and [normalizeCertainty] are the same
    function; its result is a number between 0 and 1 whatever the input;
    an input that is not a number, or is NaN, gives 0; a number below 0
    gives 0 and one above 1 gives 1; a number [q] in range gives the
    double of [k / 1000], where [k] thousandths is [q] rounded to three
    decimals, and that double is within 2^-54 of [k / 1000]. *)
Theorem normalizeConfidence_spec :
  (forall v, Explain.normalizeCertainty v = normalizeConfidence v)
  /\ (forall v, in_unit_interval (normalizeConfidence v))
  /\ (forall v, (forall x, v <> VNum x) -> normalizeConfidence v = zero)
  /\ normalizeConfidence (VNum S754_nan) = zero
  /\ (forall x, ltb x zero = true -> normalizeConfidence (VNum x) = zero)
  /\ (forall x, ltb one x = true -> normalizeConfidence (VNum x) = one)
  /\ (forall x q, to_Q x = Some q -> (0 <= q <= 1)%Q ->
        exists k r,
          (0 <= k <= 1000)%Z /\ rounds_to q k
          /\ normalizeConfidence (VNum x) = decimal k 1000
          /\ to_Q (decimal k 1000) = Some r
          /\ (Qabs (r - (k # 1000)) <= 1 # 18014398509481984)%Q).
Proof.
  split; [exact normalizeCertainty_same|].
  split.
  { intros v. destruct (normalizeConfidence_thousandths v) as [k [Hk ->]].
    exact (thousandth_unit Hk). }
  split.
  { intros v Hv. destruct v; try reflexivity. exfalso. exact (Hv x eq_refl). }
  split; [reflexivity|].
  split.
  { intros x Hx. rewrite normalizeConfidence_number, Hx.
    destruct (isNaN x); reflexivity. }
  split.
  { intros x Hx. destruct (above_one x Hx) as [Hnan Hneg].
    rewrite normalizeConfidence_number, Hnan, Hneg, Hx. reflexivity. }
  intros x q Hx Hq.
  destruct (thousandth_close (toFixed3_range Hq)) as [r [Hr Hclose]].
  exists (toFixed3 q), r.
  split; [exact (toFixed3_range Hq)|].
  split; [exact (toFixed3_rounds q)|].
  split; [exact (normalizeConfidence_in_range x Hx Hq)|].
  split; assumption.
Qed.

Lemma normalizeConfidence_spec_witness :
  normalizeConfidence (VNum (decimal 15 10)) = one
  /\ exists k r,
       (0 <= k <= 1000)%Z
       /\ rounds_to (1 * inject_Z 4503599627370496 * 2 ^ (-53)) k
       /\ normalizeConfidence (VNum (decimal 1 2)) = decimal k 1000
       /\ to_Q (decimal k 1000) = Some r
       /\ (Qabs (r - (k # 1000)) <= 1 # 18014398509481984)%Q.
Proof.
  destruct normalizeConfidence_spec as (_ & _ & _ & _ & _ & Hbig & Hround).
  split.
  - apply Hbig. reflexivity.
  - apply (Hround (decimal 1 2)).
    + reflexivity.
    + split; vm_compute; discriminate.
Defined.

End ConfidenceClaims.

(** ** The confidence of a result without ingredients: claims *)

Module ExtractionClaims.
Import Ocr Wording ConfidenceClaims.

Definition one_fifth : number := decimal 2 10.

(** The cap applied to each of the results of the confidence normalizer:
    the smaller of the two numbers, not above 0.2, left alone by the
    normalizer and by a second cap. *)
Definition cap_ok (k : Z) : bool :=
  let m := Math_min (decimal k 1000) one_fifth in
  leb m one_fifth
  && sf_eqb m (if (k <=? 200)%Z then decimal k 1000 else one_fifth)
  && sf_eqb (normalizeConfidence (VNum m)) m
  && sf_eqb (Math_min m one_fifth) m.

Lemma cap_checked : forallb cap_ok (map Z.of_nat (seq 0 1001)) = true.
Proof. vm_compute. reflexivity. Qed.

Lemma cap_ok_range k : (0 <= k <= 1000)%Z -> cap_ok k = true.
Proof.
  intros Hk. apply (proj1 (forallb_forall _ _) cap_checked).
  apply in_map_iff. exists (Z.to_nat k). split; [lia|].
  apply in_seq. lia.
Qed.

Lemma cap_facts v :
  let m := Math_min (normalizeConfidence v) one_fifth in
  leb m one_fifth = true
  /\ normalizeConfidence (VNum m) = m
  /\ Math_min m one_fifth = m.
Proof.
  destruct (normalizeConfidence_thousandths v) as [k [Hk ->]].
  assert (Hc := cap_ok_range Hk). unfold cap_ok in Hc.
  rewrite !andb_true_iff in Hc. destruct Hc as [[[H1 _] H3] H4].
  cbv zeta. split; [exact H1|].
  split; apply sf_eqb_eq; assumption.
Qed.

Section WithRuntime.
Context `{Runtime}.

Lemma normalizeResult_confidence raw :
  confidence (normalizeResult raw)
  = match normalizeIngredients (get_opt raw "ingredients") with
    | [] => Math_min (normalizeConfidence (get_opt raw "confidence")) one_fifth
    | _ :: _ => normalizeConfidence (get_opt raw "confidence")
    end.
Proof.
  unfold normalizeResult. cbv zeta. simpl ingredients.
  destruct (normalizeIngredients (get_opt raw "ingredients")); reflexivity.
Qed.

Lemma normalizeResult_ingredients raw :
  ingredients (normalizeResult raw)
  = normalizeIngredients (get_opt raw "ingredients").
Proof.
  unfold normalizeResult. cbv zeta. simpl ingredients.
  destruct (normalizeIngredients (get_opt raw "ingredients")); reflexivity.
Qed.

Lemma readResponse_returns response w r w' :
  readResponse response w = (Returned r, w') ->
  r = DEFAULT_RESULT \/ exists raw, r = normalizeResult raw.
Proof.
  unfold readResponse, response_json, bind, ret, throw.
  destruct (body response) as [t|]; [|discriminate].
  destruct (JSON_parse t) as [payload|]; [|discriminate].
  destruct (nonempty (extractMessageContent payload)).
  - destruct (JSON_parse (extractMessageContent payload)) as [raw|];
      intros E; injection E as <- _; [right; exists raw|left]; reflexivity.
  - intros E; injection E as <- _. left. reflexivity.
Qed.

Lemma analyzeLabel_returns env image w r w' :
  analyzeLabel env image w = (Returned r, w') ->
  r = DEFAULT_RESULT \/ exists raw, r = normalizeResult raw.
Proof.
  unfold analyzeLabel.
  destruct image as [| | | |[|c u]| |]; try discriminate.
  destruct (INTERFAZE_API_KEY env) as [[|k ey]|];
    try (intros E; injection E as <- _; left; reflexivity).
  unfold bind.
  destruct (fetch (schemaRequest env (k :: ey) (c :: u)) w) as [[first|e] w1];
    [|discriminate].
  destruct (negb (ok first) && is_400_or_422 first).
  - destruct (fetch (jsonObjectRequest env (k :: ey) (c :: u)) w1)
      as [[second|e] w2]; [|discriminate].
    destruct (negb (ok second)); [discriminate|].
    apply readResponse_returns.
  - unfold ret. destruct (negb (ok first)); [discriminate|].
    apply readResponse_returns.
Qed.

(** C2.  A result built from the parsed text of the model has, when its
    ingredient list is empty, the smaller of the normalized confidence and
    0.2 as its confidence, which is thus at most 0.2; every result that
    [analyzeLabel] returns has a confidence of at most 0.2 when it has no
    ingredient; a reported confidence of 0.95 with no ingredient gives
    0.2. *)
Theorem empty_ingredients_cap :
  (forall raw,
     ingredients (normalizeResult raw) = [] ->
     confidence (normalizeResult raw)
     = Math_min (normalizeConfidence (get_opt raw "confidence")) one_fifth
     /\ leb (confidence (normalizeResult raw)) one_fifth = true)
  /\ (forall env image w r w',
        analyzeLabel env image w = (Returned r, w') ->
        ingredients r = [] -> leb (confidence r) one_fifth = true)
  /\ confidence
       (normalizeResult
          (VObj [(lit "ingredients", VArr []);
                 (lit "confidence", VNum (decimal 95 100))]))
     = one_fifth.
Proof.
  assert (Hraw : forall raw,
     ingredients (normalizeResult raw) = [] ->
     confidence (normalizeResult raw)
     = Math_min (normalizeConfidence (get_opt raw "confidence")) one_fifth
     /\ leb (confidence (normalizeResult raw)) one_fifth = true).
  { intros raw Hempty. rewrite normalizeResult_ingredients in Hempty.
    rewrite normalizeResult_confidence, Hempty.
    split; [reflexivity|].
    exact (proj1 (cap_facts (get_opt raw "confidence"))). }
  split; [exact Hraw|]. split.
  - intros env image w r w' Hrun Hempty.
    destruct (analyzeLabel_returns env image w Hrun) as [->|[raw ->]].
    + reflexivity.
    + exact (proj2 (Hraw raw Hempty)).
  - rewrite normalizeResult_confidence. reflexivity.
Qed.

End WithRuntime.

Lemma empty_ingredients_cap_witness :
  leb (confidence
         (@normalizeResult Demo.runtime
            (VObj [(lit "confidence", VNum (decimal 95 100))])))
      one_fifth = true.
Proof.
  apply (proj1 (@empty_ingredients_cap Demo.runtime)
           (VObj [(lit "confidence", VNum (decimal 95 100))])).
  reflexivity.
Defined.

End ExtractionClaims.

(** ** Explanation items and texts: claims *)

Module ExplanationClaims.
Import Explain Wording.

Lemma normalizeRiskLevel_risk_of v :
  normalizeRiskLevel v
  = match risk_of v with
    | Some r => r
    | None => Unknown
    end.
Proof.
  destruct v; try reflexivity. simpl.
  destruct (str_eqb s (lit "Green")); [reflexivity|].
  destruct (str_eqb s (lit "Yellow")); [reflexivity|].
  destruct (str_eqb s (lit "Red")); [reflexivity|].
  destruct (str_eqb s (lit "Unknown")); reflexivity.
Qed.

Lemma risk_of_text r : risk_of (VStr (risk_text r)) = Some r.
Proof. destruct r; reflexivity. Qed.


Lemma keep_sources_filter l :
  keep_sources l = filter (fun s => nonempty (trim s)) (strings_of l).
Proof.
  induction l as [|v l IH]; simpl; [reflexivity|].
  destruct v; simpl; try exact IH.
  destruct (nonempty (trim s)); simpl; rewrite IH; reflexivity.
Qed.

Lemma is_object_tests v :
  is_object v = negb (falsy v || negb (typeof_object v)).
Proof. destruct v; simpl; rewrite ?orb_true_r; reflexivity. Qed.

Lemma normalizeItem_item_of entry :
  normalizeItem entry = if is_object entry then Some (item_of entry) else None.
Proof.
  unfold normalizeItem. rewrite is_object_tests.
  destruct (falsy entry || negb (typeof_object entry)); simpl; [reflexivity|].
  unfold item_of. rewrite normalizeRiskLevel_risk_of.
  f_equal. f_equal.
  destruct (get entry "sources"); simpl; try reflexivity.
  apply keep_sources_filter.
Qed.

Lemma normalizeItems_list l :
  normalizeItems (VArr l) = map item_of (filter is_object l).
Proof.
  simpl. induction l as [|entry l IH]; simpl; [reflexivity|].
  rewrite normalizeItem_item_of, IH.
  destruct (is_object entry); reflexivity.
Qed.



Section WithRuntime.
Context `{Runtime}.

Lemma shapeResult_returns raw w :
  raw <> VNull ->
  shapeResult raw w
  = (Returned {| summary := text_of (get raw "summary") (summary DEFAULT_RESULT);
                 items := normalizeItems (get raw "items");
                 disclaimer :=
                   text_of (get raw "disclaimer") (disclaimer DEFAULT_RESULT) |},
     w).
Proof. intros Hraw. destruct raw; try reflexivity. congruence. Qed.

Lemma shapeResult_inv raw w r w' :
  shapeResult raw w = (Returned r, w') -> raw <> VNull /\ w' = w.
Proof.
  destruct raw; simpl; unfold ret, throw; intros E;
    try discriminate; injection E as _ <-; split; congruence.
Qed.

Lemma readResponse_shapes env response w r w' :
  readResponse env response w = (Returned r, w') ->
  r = DEFAULT_RESULT
  \/ exists content raw,
       JSON_parse content = Some raw /\ shapeResult raw w = (Returned r, w).
Proof.
  unfold readResponse, response_json, bind, ret, throw.
  destruct (body response) as [t|]; [|discriminate].
  destruct (JSON_parse t) as [payload|]; [|discriminate].
  assert (Hrest :
    (if nonempty (extractMessageContent payload)
     then match JSON_parse (extractMessageContent payload) with
          | Some rawResult => shapeResult rawResult
          | None => fun w => (Returned DEFAULT_RESULT, w)
          end
     else fun w => (Returned DEFAULT_RESULT, w)) w = (Returned r, w') ->
    r = DEFAULT_RESULT
    \/ exists content raw,
         JSON_parse content = Some raw /\ shapeResult raw w = (Returned r, w)).
  { destruct (nonempty (extractMessageContent payload)).
    - destruct (JSON_parse (extractMessageContent payload)) as [raw|] eqn:Ep.
      + intros E. right. exists (extractMessageContent payload), raw.
        split; [exact Ep|].
        destruct (shapeResult_inv raw w E) as [_ ->]. exact E.
      + intros E. injection E as <- _. left. reflexivity.
    - intros E. injection E as <- _. left. reflexivity. }
  destruct payload; try exact Hrest.
  destruct (is_production env); [exact Hrest | discriminate].
Qed.

Lemma explainIngredients_returns env contextMessage w r w' :
  explainIngredients env contextMessage w = (Returned r, w') ->
  r = DEFAULT_RESULT
  \/ exists content raw w0,
       JSON_parse content = Some raw /\ shapeResult raw w0 = (Returned r, w0).
Proof.
  unfold explainIngredients.
  destruct (INTERFAZE_API_KEY env) as [[|k ey]|];
    try (intros E; injection E as <- _; left; reflexivity).
  unfold bind.
  destruct (attempts _ _ _ w) as [[st|e] w1]; [|discriminate].
  destruct (response_ st) as [response|]; [|discriminate].
  destruct (ok response); [|discriminate].
  intros E. destruct (readResponse_shapes env response w1 E)
    as [->|[content [raw [Hp Hs]]]]; [left; reflexivity|].
  right. exists content, raw, w1. split; assumption.
Qed.

(** C1 as amended.  Of a parsed text that is not [null] the result takes
    the summary and the disclaimer whenever each is a string, the empty
    string included, and the default text otherwise, each on its own; so
    the disclaimer of the result is not empty unless the parsed text gives
    the empty string for it.  Every result that [explainIngredients]
    returns is the default result or is built that way from a parsed
    text. *)
Theorem explanation_texts :
  (forall raw w,
     raw <> VNull ->
     exists r,
       shapeResult raw w = (Returned r, w)
       /\ summary r = text_of (get raw "summary") (summary DEFAULT_RESULT)
       /\ disclaimer r
          = text_of (get raw "disclaimer") (disclaimer DEFAULT_RESULT)
       /\ items r = normalizeItems (get raw "items")
       /\ (get raw "disclaimer" <> VStr [] -> disclaimer r <> []))
  /\ (forall env contextMessage w r w',
        explainIngredients env contextMessage w = (Returned r, w') ->
        r = DEFAULT_RESULT
        \/ exists content raw w0,
             JSON_parse content = Some raw
             /\ shapeResult raw w0 = (Returned r, w0)).
Proof.
  split; [|exact explainIngredients_returns].
  intros raw w Hraw. eexists. split; [exact (shapeResult_returns w Hraw)|].
  simpl. repeat split.
  intros Hd. destruct (get raw "disclaimer"); simpl; try discriminate.
  intros ->. exact (Hd eq_refl).
Qed.

End WithRuntime.

(** The summary and the disclaimer of the parsed text are empty strings,
    and so are those of the result. *)
Lemma empty_disclaimer_returned :
  exists r w',
    @explainIngredients Demo.runtime Demo.env []
      (Demo.script [Responds Demo.success]) = (Returned r, w')
    /\ @JSON_parse Demo.runtime (lit "content") = Some Demo.empty_texts
    /\ get Demo.empty_texts "disclaimer" = VStr []
    /\ disclaimer r = [] /\ summary r = [].
Proof.
  eexists. eexists. split; [vm_compute; reflexivity|].
  repeat split.
Qed.

Lemma explanation_texts_witness :
  exists r,
    shapeResult Demo.empty_texts (Demo.script []) = (Returned r, Demo.script [])
    /\ items r = [].
Proof.
  destruct (proj1 (@explanation_texts Demo.runtime) Demo.empty_texts
              (Demo.script [])) as [r [Hr [_ [_ [Hi _]]]]].
  - discriminate.
  - exists r. split; [exact Hr | exact Hi].
Defined.

End ExplanationClaims.

(** ** The loop over the candidate models: claims *)

Module CandidateClaims.
Import Explain Wording.

Lemma fetch_responds req w r rest :
  pending w = Responds r :: rest ->
  fetch req w = (Returned r, after w [req] rest).
Proof. unfold fetch, after. intros ->. reflexivity. Qed.








Section WithRuntime.
Context `{Runtime}.



End WithRuntime.


End CandidateClaims.

(** ** The schema fallback of the extraction call: claims *)

Module FallbackClaims.
Import Ocr Wording.



Section WithRuntime.
Context `{Runtime}.

Lemma readResponse_world response w : snd (readResponse response w) = w.
Proof.
  unfold readResponse, response_json, bind, ret, throw.
  destruct (body response) as [t|]; [|reflexivity].
  destruct (JSON_parse t) as [payload|]; [|reflexivity].
  destruct (nonempty (extractMessageContent payload)); [|reflexivity].
  destruct (JSON_parse (extractMessageContent payload)); reflexivity.
Qed.






End WithRuntime.


End FallbackClaims.

(** ** The domain lookup: claims *)

Module FetchJsonClaims.
Import FetchJson Wording.

Lemma startsWith_iff s pre : startsWith s pre = true <-> exists t, s = pre ++ t.
Proof.
  revert s. induction pre as [|x pre IH]; intros s; simpl.
  - split; [intros _; exists s; reflexivity | destruct s; reflexivity].
  - destruct s as [|y s]; simpl.
    + split; [discriminate | intros [t Ht]; discriminate].
    + rewrite andb_true_iff, N.eqb_eq, IH. split.
      * intros [-> [t ->]]. exists t. reflexivity.
      * intros [t Ht]. injection Ht as -> ->. split; [reflexivity|].
        exists t. reflexivity.
Qed.

Lemma endsWith_iff s suf : endsWith s suf = true <-> exists pre, s = pre ++ suf.
Proof.
  unfold endsWith. rewrite startsWith_iff. split.
  - intros [t Ht]. exists (rev t).
    rewrite <- (rev_involutive s), Ht, rev_app_distr, rev_involutive.
    reflexivity.
  - intros [pre ->]. exists (rev pre). apply rev_app_distr.
Qed.

Section WithRuntime.
Context `{Runtime}.

Lemma isWhitelisted_iff url :
  isWhitelisted url = true
  <-> exists hostname, URL_hostname url = Some hostname /\ allowed_host hostname.
Proof.
  unfold isWhitelisted, allowed_host. split.
  - destruct (URL_hostname url) as [h|]; [|discriminate].
    rewrite existsb_exists. intros [d [Hd Hm]]. exists h.
    split; [reflexivity|]. exists d. split; [exact Hd|].
    apply orb_true_iff in Hm. destruct Hm as [Hm|Hm].
    + left. apply str_eqb_eq. exact Hm.
    + right. apply endsWith_iff. exact Hm.
  - intros [h [-> [d [Hd Hm]]]]. apply existsb_exists. exists d.
    split; [exact Hd|]. apply orb_true_iff. destruct Hm as [->|Hm].
    + left. apply str_eqb_refl.
    + right. apply endsWith_iff. exact Hm.
Qed.

Lemma fetch_json_rejected url headers w :
  isWhitelisted url = false ->
  fetch_json url headers w = (Thrown (UrlNotAllowed url), w).
Proof. intros Hu. unfold fetch_json. rewrite Hu. reflexivity. Qed.

(** What [fetch_json] makes of a response. *)
Definition verdict (r : response) : outcome value :=
  if negb (ok r) then
    Thrown (FetchJsonFailed (HttpError (status r) (statusText r)))
  else if negb (is_json_type r) then Thrown (FetchJsonFailed NotJson)
  else
    match body r with
    | Some t =>
        match JSON_parse t with
        | Some v => Returned v
        | None => Thrown (FetchJsonFailed BodyRejected)
        end
    | None => Thrown (FetchJsonFailed BodyRejected)
    end.

Lemma fetch_json_response url headers w r rest :
  isWhitelisted url = true -> pending w = Responds r :: rest ->
  fetch_json url headers w = (verdict r, after w [Get url headers] rest).
Proof.
  intros Hu Hw. unfold fetch_json, verdict. rewrite Hu.
  unfold try_catch, bind. cbn [negb]. cbv beta.
  rewrite (CandidateClaims.fetch_responds (Get url headers) w Hw).
  destruct (negb (ok r)); [reflexivity|].
  destruct (negb (is_json_type r)); [reflexivity|].
  unfold response_json. destruct (body r) as [t|]; [|reflexivity].
  destruct (JSON_parse t); reflexivity.
Qed.

(** C8.  A URL is let through exactly when its host name is one of the two
    allowed domains or ends with a dot followed by one of them.  For any
    other URL [fetch_json] raises and the world is unchanged: nothing is
    sent.  For a URL let through, one request is sent, and [fetch_json]
    raises when the response is not [ok], raises when its content type
    does not include application/json, and otherwise returns the parsed
    body (raising when the body does not parse).  The host evil.com is
    rejected with nothing sent, the host world.openfoodfacts.org is let
    through, and a response of type text/html with status 200 is
    rejected. *)
Theorem fetch_json_spec :
  (forall url,
     isWhitelisted url = true
     <-> exists hostname,
          URL_hostname url = Some hostname /\ allowed_host hostname)
  /\ (forall url headers w,
        isWhitelisted url = false ->
        fetch_json url headers w = (Thrown (UrlNotAllowed url), w))
  /\ (forall url headers w r rest,
        isWhitelisted url = true -> pending w = Responds r :: rest ->
        fetch_json url headers w = (verdict r, after w [Get url headers] rest)
        /\ (ok r = false -> exists e, verdict r = Thrown e)
        /\ (is_json_type r = false -> exists e, verdict r = Thrown e)
        /\ (forall t v, ok r = true -> is_json_type r = true ->
                        body r = Some t -> JSON_parse t = Some v ->
                        verdict r = Returned v))
  /\ (forall url headers w,
        URL_hostname url = Some (lit "evil.com") ->
        fetch_json url headers w = (Thrown (UrlNotAllowed url), w))
  /\ (forall url,
        URL_hostname url = Some (lit "world.openfoodfacts.org") ->
        isWhitelisted url = true)
  /\ (forall url headers w r rest,
        isWhitelisted url = true -> pending w = Responds r :: rest ->
        status r = 200%Z -> contentType r = Some (lit "text/html") ->
        fetch_json url headers w
        = (Thrown (FetchJsonFailed NotJson), after w [Get url headers] rest)).
Proof.
  split; [exact isWhitelisted_iff|].
  split; [exact fetch_json_rejected|].
  split.
  { intros url headers w r rest Hu Hw.
    split; [exact (fetch_json_response url headers w Hu Hw)|].
    unfold verdict. split; [|split].
    - intros ->. eexists. reflexivity.
    - intros ->. destruct (negb (ok r)); eexists; reflexivity.
    - intros t v -> -> -> ->. reflexivity. }
  split.
  { intros url headers w Hh. apply fetch_json_rejected.
    unfold isWhitelisted. rewrite Hh. reflexivity. }
  split.
  { intros url Hh. unfold isWhitelisted. rewrite Hh. reflexivity. }
  intros url headers w r rest Hu Hw Hs Hc.
  rewrite (fetch_json_response url headers w Hu Hw). f_equal.
  unfold verdict, ok, is_json_type. rewrite Hs, Hc. reflexivity.
Qed.

End WithRuntime.

Lemma fetch_json_spec_witness :
  @fetch_json Demo.runtime (lit "https://evil.com/cgi/search.pl") []
    (Demo.script [Responds Demo.success])
  = (Thrown (UrlNotAllowed (lit "https://evil.com/cgi/search.pl")),
     Demo.script [Responds Demo.success]).
Proof.
  apply (proj1 (proj2 (proj2 (proj2 (@fetch_json_spec Demo.runtime))))).
  reflexivity.
Defined.

End FetchJsonClaims.

(** ** Idempotence: claims *)

Module IdempotenceClaims.
Import Ocr Explain Wording.

(** A text kept by [normalizeSections]: trimmed and not empty. *)
Definition kept (s : jsstring) : Prop := trim s = s /\ nonempty s = true.

Lemma keep_claims_kept l : Forall kept (keep_claims l).
Proof.
  induction l as [|v l IH]; simpl; [constructor|].
  destruct v; simpl; try exact IH.
  destruct (nonempty (trim s)) eqn:E; simpl; [|exact IH].
  constructor; [|exact IH]. split; [apply trim_idem | exact E].
Qed.

Lemma keep_claims_fixed cs : Forall kept cs -> keep_claims (map VStr cs) = cs.
Proof.
  induction 1 as [|c cs [Ht Hn] _ IH]; simpl; [reflexivity|].
  rewrite Ht, Hn, IH. reflexivity.
Qed.

Lemma normalizeSections_fixed w cs :
  match w with Some t => kept t | None => True end ->
  match cs with Some l => Forall kept l /\ l <> [] | None => True end ->
  normalizeSections (sections_value {| warnings := w; claims := cs |})
  = {| warnings := w; claims := cs |}.
Proof.
  intros Hw Hc. unfold normalizeSections, sections_value.
  destruct w as [t|], cs as [l|]; simpl.
  - destruct Hw as [Ht Hn], Hc as [Hl Hne].
    rewrite Ht, Hn, (keep_claims_fixed Hl).
    destruct l; [congruence | reflexivity].
  - destruct Hw as [Ht Hn]. rewrite Ht, Hn. reflexivity.
  - destruct Hc as [Hl Hne]. rewrite (keep_claims_fixed Hl).
    destruct l; [congruence | reflexivity].
  - reflexivity.
Qed.

Lemma normalizeSections_idem v :
  normalizeSections (sections_value (normalizeSections v)) = normalizeSections v.
Proof.
  unfold normalizeSections at 2 3.
  destruct (falsy v || negb (typeof_object v)).
  - reflexivity.
  - apply normalizeSections_fixed.
    + destruct (get v "warnings"); try exact I.
      destruct (nonempty (trim s)) eqn:E; [|exact I].
      split; [apply trim_idem | exact E].
    + destruct (get v "claims"); try exact I.
      assert (Hk := keep_claims_kept elems).
      destruct (keep_claims elems) as [|c cs]; [exact I|].
      split; [exact Hk | discriminate].
Qed.

Lemma normalizeDomain_idem v :
  normalizeDomain (VStr (domain_text (normalizeDomain v))) = normalizeDomain v.
Proof. destruct (normalizeDomain v); reflexivity. Qed.

Lemma normalizeConfidence_idem v :
  normalizeConfidence (VNum (normalizeConfidence v)) = normalizeConfidence v.
Proof.
  destruct (ConfidenceClaims.normalizeConfidence_thousandths v) as [k [Hk ->]].
  exact (thousandth_fixed Hk).
Qed.

Section WithRuntime.
Context `{Runtime}.

Lemma normalizeLanguage_en : normalizeLanguage (VStr (lit "en")) = lit "en".
Proof.
  unfold normalizeLanguage.
  change (trim (lit "en")) with (lit "en").
  change (nonempty (lit "en")) with true. cbv iota.
  rewrite (lower_ascii (lit "en") eq_refl). reflexivity.
Qed.

Lemma language_tag_nonempty s : language_tag s = true -> nonempty s = true.
Proof. destruct s; [discriminate | reflexivity]. Qed.

Lemma normalizeLanguage_idem v :
  normalizeLanguage (VStr (normalizeLanguage v)) = normalizeLanguage v.
Proof.
  unfold normalizeLanguage at 2 3.
  destruct v; try exact normalizeLanguage_en.
  destruct (nonempty (trim s)); [|exact normalizeLanguage_en].
  destruct (language_tag (toLowerCase (trim s))) eqn:E;
    [|exact normalizeLanguage_en].
  unfold normalizeLanguage.
  rewrite (lower_trim (trim_idem s)).
  rewrite (language_tag_nonempty _ E), lower_idem, E. reflexivity.
Qed.

Lemma normalizeResult_fields raw :
  normalizeResult raw
  = {| domain_guess := normalizeDomain (get_opt raw "domain_guess");
       ingredients := normalizeIngredients (get_opt raw "ingredients");
       sections := normalizeSections (get_opt raw "sections");
       confidence :=
         match normalizeIngredients (get_opt raw "ingredients") with
         | [] => Math_min (normalizeConfidence (get_opt raw "confidence"))
                   ExtractionClaims.one_fifth
         | _ :: _ => normalizeConfidence (get_opt raw "confidence")
         end;
       language := normalizeLanguage (get_opt raw "language") |}.
Proof.
  unfold normalizeResult. cbv zeta. cbn [ingredients].
  destruct (normalizeIngredients (get_opt raw "ingredients")); reflexivity.
Qed.

Lemma normalizeResult_idem raw :
  normalizeResult (result_value (normalizeResult raw)) = normalizeResult raw.
Proof.
  rewrite (normalizeResult_fields (result_value (normalizeResult raw))).
  rewrite (normalizeResult_fields raw).
  change (get_opt (result_value ?r) "domain_guess")
    with (VStr (domain_text (domain_guess r))).
  change (get_opt (result_value ?r) "ingredients")
    with (VArr (map VStr (ingredients r))).
  change (get_opt (result_value ?r) "sections")
    with (sections_value (sections r)).
  change (get_opt (result_value ?r) "confidence") with (VNum (confidence r)).
  change (get_opt (result_value ?r) "language") with (VStr (language r)).
  cbn [domain_guess ingredients sections confidence language].
  rewrite normalizeDomain_idem, OcrIngredients.normalizeIngredients_idem,
    normalizeSections_idem, normalizeLanguage_idem.
  f_equal.
  destruct (ExtractionClaims.cap_facts (get_opt raw "confidence"))
    as [_ [Hfix Hmin]].
  destruct (normalizeIngredients (get_opt raw "ingredients")).
  - rewrite Hfix. exact Hmin.
  - apply normalizeConfidence_idem.
Qed.

End WithRuntime.

(** An item left alone by the normalizer. *)
Definition settled (it : ExplanationItem) : Prop :=
  normalizeCertainty (VNum (certainty it)) = certainty it
  /\ Forall (fun s => nonempty (trim s) = true) (sources it).

Lemma keep_sources_fixed l :
  Forall (fun s => nonempty (trim s) = true) l -> keep_sources (map VStr l) = l.
Proof.
  induction 1 as [|s l Hs _ IH]; simpl; [reflexivity|].
  rewrite Hs, IH. reflexivity.
Qed.

Lemma normalizeItem_value it :
  settled it -> normalizeItem (item_value it) = Some it.
Proof.
  intros [Hc Hs]. unfold normalizeItem.
  change (falsy (item_value it) || negb (typeof_object (item_value it)))
    with false. cbv iota.
  change (get (item_value it) "name") with (VStr (name it)).
  change (get (item_value it) "function") with (VStr (function it)).
  change (get (item_value it) "risk_level")
    with (VStr (risk_text (risk_level it))).
  change (get (item_value it) "why") with (VStr (why it)).
  change (get (item_value it) "certainty") with (VNum (certainty it)).
  change (get (item_value it) "sources") with (VArr (map VStr (sources it))).
  rewrite ExplanationClaims.normalizeRiskLevel_risk_of,
    ExplanationClaims.risk_of_text, (keep_sources_fixed Hs), Hc.
  destruct it; reflexivity.
Qed.

Lemma item_of_settled entry : settled (item_of entry).
Proof.
  split.
  - apply normalizeConfidence_idem.
  - apply Forall_forall. intros s Hs. apply filter_In in Hs. tauto.
Qed.

Lemma normalizeItems_fixed l :
  Forall settled l -> normalizeItems (VArr (map item_value l)) = l.
Proof.
  induction 1 as [|it l Hit _ IH]; [reflexivity|].
  change (normalizeItems (VArr (map item_value (it :: l))))
    with (match normalizeItem (item_value it) with
          | Some item => [item]
          | None => []
          end ++ normalizeItems (VArr (map item_value l))).
  rewrite (normalizeItem_value Hit), IH. reflexivity.
Qed.

Lemma normalizeItems_idem v :
  normalizeItems (VArr (map item_value (normalizeItems v))) = normalizeItems v.
Proof.
  apply normalizeItems_fixed.
  destruct v; try constructor.
  rewrite ExplanationClaims.normalizeItems_list.
  apply Forall_forall. intros it Hit. apply in_map_iff in Hit.
  destruct Hit as [entry [<- _]]. apply item_of_settled.
Qed.

(** C9.  Each field normalizer, applied to its own output written back as
    a document, returns that output; so does the normalization of a whole
    extraction result, the cap on the confidence included, and so does
    [normalizeItems] applied to the items it produced. *)
Theorem normalizers_idempotent `{Runtime} :
  (forall v, normalizeDomain (VStr (domain_text (normalizeDomain v)))
             = normalizeDomain v)
  /\ (forall v, normalizeIngredients (VArr (map VStr (normalizeIngredients v)))
                = normalizeIngredients v)
  /\ (forall v, normalizeSections (sections_value (normalizeSections v))
                = normalizeSections v)
  /\ (forall v, normalizeConfidence (VNum (normalizeConfidence v))
                = normalizeConfidence v)
  /\ (forall v, normalizeLanguage (VStr (normalizeLanguage v))
                = normalizeLanguage v)
  /\ (forall raw, normalizeResult (result_value (normalizeResult raw))
                  = normalizeResult raw)
  /\ (forall v, normalizeItems (VArr (map item_value (normalizeItems v)))
                = normalizeItems v).
Proof.
  split; [exact normalizeDomain_idem|].
  split; [exact OcrIngredients.normalizeIngredients_idem|].
  split; [exact normalizeSections_idem|].
  split; [exact normalizeConfidence_idem|].
  split; [exact normalizeLanguage_idem|].
  split; [exact normalizeResult_idem|].
  exact normalizeItems_idem.
Qed.

End IdempotenceClaims.

(** ** The extraction client beyond the claims *)

Module ExtractionFacts.
Import Ocr Wording.

(** [l.join(sep)] for a one-character separator. *)
Definition join (sep : unit16) (l : list jsstring) : jsstring :=
  match l with
  | [] => []
  | x :: xs => x ++ flat_map (cons sep) xs
  end.

Lemma split_on_join sep s : join sep (split_on (N.eqb sep) s) = s.
Proof.
  induction s as [|c s IH]; [reflexivity|].
  simpl split_on. destruct (N.eqb_spec sep c) as [->|Hc].
  - destruct (split_on (N.eqb c) s) as [|f fs] eqn:E.
    + exfalso. exact (split_on_nonnil _ _ E).
    + simpl in *. f_equal. exact IH.
  - destruct (split_on (N.eqb sep) s) as [|f fs] eqn:E.
    + exfalso. exact (split_on_nonnil _ _ E).
    + simpl in *. rewrite IH. reflexivity.
Qed.

Lemma is_hyphen_eqb c : is_hyphen c = N.eqb 45%N c.
Proof. unfold is_hyphen. apply N.eqb_sym. Qed.

Lemma split_on_ext p q s :
  (forall c, p c = q c) -> split_on p s = split_on q s.
Proof.
  intros Hpq. induction s as [|c s IH]; simpl; [reflexivity|].
  rewrite Hpq, IH. reflexivity.
Qed.

(** The shape the pattern of [normalizeLanguage] describes. *)
Lemma language_tag_shape s :
  language_tag s = true ->
  exists p ps,
    s = p ++ flat_map (cons 45%N) ps
    /\ primary_subtag p = true /\ forallb other_subtag ps = true.
Proof.
  unfold language_tag. intros Ht.
  assert (Hj := split_on_join 45%N s).
  rewrite (split_on_ext is_hyphen (N.eqb 45%N) s is_hyphen_eqb) in Ht.
  destruct (split_on (N.eqb 45%N) s) as [|p ps]; [discriminate|].
  apply andb_true_iff in Ht. destruct Ht as [Hp Hps].
  exists p, ps. simpl in Hj. split; [symmetry; exact Hj|]. split; assumption.
Qed.

Lemma DEFAULT_language_tag : language_tag (lit "en") = true.
Proof. reflexivity. Qed.

(** A text kept by [normalizeSections]. *)
Definition tidy (s : jsstring) : Prop := trim s = s /\ s <> [].

Lemma keep_claims_tidy l : Forall tidy (keep_claims l).
Proof.
  eapply Forall_impl; [|exact (IdempotenceClaims.keep_claims_kept l)].
  intros s [Ht Hn]. split; [exact Ht | apply nonempty_true; exact Hn].
Qed.

(** Every claim kept is the trimmed text of a string of the input, and the
    claims keep the order of the input. *)
Lemma keep_claims_filter l :
  keep_claims l = filter nonempty (map trim (strings_of l)).
Proof.
  induction l as [|v l IH]; simpl; [reflexivity|].
  destruct v; simpl; try exact IH.
  destruct (nonempty (trim s)); simpl; rewrite IH; reflexivity.
Qed.

(** X5.  Whatever the input, the warnings of [normalizeSections], when
    present, are the trimmed text of the string given and not empty, and
    its claims, when present, are a non-empty list, the non-empty ones of
    the trimmed strings given, in their order; an input that is not an
    object gives neither. *)
Theorem normalizeSections_invariant raw :
  (forall w, warnings (normalizeSections raw) = Some w ->
             tidy w /\ exists t, get raw "warnings" = VStr t /\ w = trim t)
  /\ (forall cs, claims (normalizeSections raw) = Some cs ->
                 cs <> [] /\ Forall tidy cs
                 /\ exists l, get raw "claims" = VArr l
                              /\ cs = filter nonempty (map trim (strings_of l)))
  /\ (is_object raw = false ->
      normalizeSections raw = {| warnings := None; claims := None |}).
Proof.
  unfold normalizeSections. rewrite <- (negb_involutive (falsy raw || _)).
  rewrite <- ExplanationClaims.is_object_tests.
  destruct (is_object raw); simpl; [|repeat split; discriminate].
  split; [|split; [|discriminate]].
  - intros w Hw. destruct (get raw "warnings"); try discriminate.
    destruct (nonempty (trim s)) eqn:E; [|discriminate].
    injection Hw as <-. split.
    + split; [apply trim_idem | apply nonempty_true; exact E].
    + exists s. split; reflexivity.
  - intros cs Hc. destruct (get raw "claims"); try discriminate.
    assert (Ht := keep_claims_tidy elems).
    assert (Hf := keep_claims_filter elems).
    destruct (keep_claims elems) as [|c l]; [discriminate|].
    injection Hc as <-. split; [discriminate|]. split; [exact Ht|].
    exists elems. split; [reflexivity | exact Hf].
Qed.

Lemma domain_text_inj d d' : domain_text d = domain_text d' -> d = d'.
Proof. destruct d, d'; simpl; intros E; try reflexivity; discriminate E. Qed.

Lemma normalizeDomain_text d : normalizeDomain (VStr (domain_text d)) = d.
Proof. destruct d; reflexivity. Qed.

Lemma normalizeDomain_other v :
  (forall d, v <> VStr (domain_text d)) -> normalizeDomain v = mixed.
Proof.
  intros Hv. destruct v; try reflexivity. simpl.
  destruct (str_eqb_spec s (lit "food")) as [->|_];
    [exfalso; exact (Hv food eq_refl)|].
  destruct (str_eqb_spec s (lit "drug")) as [->|_];
    [exfalso; exact (Hv drug eq_refl)|].
  destruct (str_eqb_spec s (lit "cosmetic")) as [->|_];
    [exfalso; exact (Hv cosmetic eq_refl)|].
  reflexivity.
Qed.

(** X6.  [normalizeDomain] gives a domain exactly when the input is the
    string that spells it, character for character, and otherwise, for
    any other string and any value that is not a string, gives mixed. *)
Theorem normalizeDomain_exact v d :
  normalizeDomain v = d
  <-> v = VStr (domain_text d)
      \/ (d = mixed /\ forall d', v <> VStr (domain_text d')).
Proof.
  split.
  - intros <-. destruct v;
      try (right; split; [reflexivity | intros d'; discriminate]).
    destruct (str_eqb_spec s (lit "food")) as [->|Hf]; [left; reflexivity|].
    destruct (str_eqb_spec s (lit "drug")) as [->|Hd]; [left; reflexivity|].
    destruct (str_eqb_spec s (lit "cosmetic")) as [->|Hc]; [left; reflexivity|].
    destruct (str_eqb_spec s (lit "mixed")) as [->|Hm]; [left; reflexivity|].
    right. split.
    + apply normalizeDomain_other. intros d' E. injection E as ->.
      destruct d'; [apply Hf | apply Hd | apply Hc | apply Hm]; reflexivity.
    + intros d' E. injection E as ->.
      destruct d'; [apply Hf | apply Hd | apply Hc | apply Hm]; reflexivity.
  - intros [->|[-> Hv]]; [apply normalizeDomain_text|].
    apply normalizeDomain_other. exact Hv.
Qed.

Lemma split_on_app_sep p a sep b :
  p sep = true -> (forall c, In c a -> p c = false) ->
  split_on p (a ++ sep :: b) = a :: split_on p b.
Proof.
  intros Hsep. induction a as [|c a IH]; intros Ha; simpl.
  - rewrite Hsep. reflexivity.
  - rewrite (Ha c (or_introl eq_refl)), IH; [reflexivity|].
    intros d Hd. apply Ha. right. exact Hd.
Qed.

Lemma split_on_joined p sep first others :
  p sep = true ->
  Forall (fun f => forall c, In c f -> p c = false) (first :: others) ->
  split_on p (first ++ flat_map (cons sep) others) = first :: others.
Proof.
  intros Hsep. revert first. induction others as [|q qs IH]; intros first Hall.
  - simpl. rewrite app_nil_r. rewrite split_on_none; [reflexivity|].
    inversion Hall; assumption.
  - inversion Hall as [|? ? Hfirst Hrest]; subst.
    simpl flat_map. rewrite (@split_on_app_sep p first sep _ Hsep Hfirst).
    rewrite (IH q Hrest). reflexivity.
Qed.

Lemma subtag_no_hyphen f :
  forallb (fun c => is_az c || is_09 c) f = true ->
  forall c, In c f -> is_hyphen c = false.
Proof.
  intros Hf c Hc. assert (H := proj1 (forallb_forall _ _) Hf c Hc).
  unfold is_az, is_09, is_hyphen in *.
  apply orb_true_iff in H. rewrite !andb_true_iff, !N.leb_le in H.
  apply N.eqb_neq. lia.
Qed.

Lemma primary_no_hyphen p :
  primary_subtag p = true -> forall c, In c p -> is_hyphen c = false.
Proof.
  unfold primary_subtag. rewrite !andb_true_iff. intros [[Hp _] _].
  apply subtag_no_hyphen. apply forallb_forall. intros c Hc.
  rewrite (proj1 (forallb_forall _ _) Hp c Hc). reflexivity.
Qed.

Lemma other_no_hyphen q :
  other_subtag q = true -> forall c, In c q -> is_hyphen c = false.
Proof.
  unfold other_subtag. rewrite !andb_true_iff. intros [[Hq _] _].
  apply subtag_no_hyphen. exact Hq.
Qed.

Lemma language_tag_of_shape p ps :
  primary_subtag p = true -> forallb other_subtag ps = true ->
  language_tag (p ++ flat_map (cons 45%N) ps) = true.
Proof.
  intros Hp Hps. unfold language_tag.
  assert (E : split_on is_hyphen (p ++ flat_map (cons 45%N) ps) = p :: ps).
  { apply (@split_on_joined is_hyphen 45%N p ps eq_refl).
    constructor; [exact (primary_no_hyphen p Hp)|].
    apply Forall_forall. intros q Hq.
    exact (other_no_hyphen q (proj1 (forallb_forall _ _) Hps q Hq)). }
  rewrite E, Hp, Hps. reflexivity.
Qed.

(** The envelope of a chat completion around a message content. *)
Definition envelope (content : value) : value :=
  VObj [(lit "choices",
         VArr [VObj [(lit "message", VObj [(lit "content", content)])]])].

(** The text a chunk exposes: its [output_text] when that is a string,
    else its [text] when that is a string. *)
Definition chunk_text (chunk : value) : list jsstring :=
  match get_opt chunk "output_text", get_opt chunk "text" with
  | VStr s, _ => [s]
  | _, VStr s => [s]
  | _, _ => []
  end.

Lemma first_chunk_text_hd chunks :
  first_chunk_text chunks = hd [] (flat_map chunk_text chunks).
Proof.
  induction chunks as [|chunk rest IH]; simpl; [reflexivity|].
  unfold chunk_text at 1.
  destruct (get_opt chunk "output_text"); try reflexivity;
    destruct (get_opt chunk "text"); try reflexivity; exact IH.
Qed.

(** X4.  [extractMessageContent] gives the empty text for a payload that
    is not a record; it gives back a string content as it is; of a list
    content it gives the text of the first chunk that exposes one, the
    chunks without a string [output_text] or [text] being skipped and
    [output_text] being preferred to [text], and the empty text when no
    chunk exposes one. *)
Theorem extractMessageContent_spec :
  (forall payload, (forall fields, payload <> VObj fields) ->
                   extractMessageContent payload = [])
  /\ (forall s, extractMessageContent (envelope (VStr s)) = s)
  /\ (forall chunks,
        extractMessageContent (envelope (VArr chunks))
        = hd [] (flat_map chunk_text chunks))
  /\ (forall chunk s, get_opt chunk "output_text" = VStr s ->
                      chunk_text chunk = [s])
  /\ (forall skipped chunk rest s,
        Forall (fun c => chunk_text c = []) skipped ->
        chunk_text chunk = [s] ->
        extractMessageContent (envelope (VArr (skipped ++ chunk :: rest))) = s).
Proof.
  assert (Hlist : forall chunks,
            extractMessageContent (envelope (VArr chunks))
            = hd [] (flat_map chunk_text chunks)).
  { intros chunks. rewrite <- first_chunk_text_hd. reflexivity. }
  split.
  { intros payload Hp. destruct payload; try reflexivity.
    exfalso. exact (Hp fields eq_refl). }
  split; [reflexivity|].
  split; [exact Hlist|].
  split.
  { intros chunk s Hs. unfold chunk_text. rewrite Hs. reflexivity. }
  intros skipped chunk rest s Hskip Hchunk. rewrite Hlist.
  induction Hskip as [|c skipped Hc _ IH]; simpl.
  - rewrite Hchunk. reflexivity.
  - rewrite Hc. exact IH.
Qed.

Lemma extractMessageContent_spec_witness :
  extractMessageContent
    (envelope (VArr [VNull; VObj [(lit "text", VStr (lit "{}"))]]))
  = lit "{}".
Proof.
  apply (proj2 (proj2 (proj2 (proj2 extractMessageContent_spec)))
           [VNull] (VObj [(lit "text", VStr (lit "{}"))]) []).
  - repeat constructor.
  - reflexivity.
Defined.

Lemma strip_trailing_slash_added b : strip_trailing_slash (b ++ [47%N]) = b.
Proof.
  unfold strip_trailing_slash. rewrite rev_app_distr. simpl.
  apply rev_involutive.
Qed.

Lemma strip_trailing_slash_none b c :
  c <> 47%N -> strip_trailing_slash (b ++ [c]) = b ++ [c].
Proof.
  intros Hc. unfold strip_trailing_slash. rewrite rev_app_distr. simpl.
  destruct c as [|p]; [reflexivity|].
  repeat (destruct p as [p|p|]; try reflexivity). congruence.
Qed.

(** X17.  Both clients post to the same address.  A configured base with
    one trailing slash and the same base without it give the same
    address, the base followed by /chat/completions; only one slash is
    removed; an unset or empty base gives the default address. *)
Theorem endpoint_trailing_slash env :
  Explain.endpoint env = Ocr.endpoint env
  /\ (forall b c, c <> 47%N ->
        (INTERFAZE_API_BASE env = Some (b ++ [c])
         \/ INTERFAZE_API_BASE env = Some (b ++ [c] ++ [47%N])) ->
        Ocr.endpoint env = b ++ [c] ++ lit "/chat/completions")
  /\ (forall b, INTERFAZE_API_BASE env = Some (b ++ [47%N] ++ [47%N]) ->
        Ocr.endpoint env = b ++ [47%N] ++ lit "/chat/completions")
  /\ (INTERFAZE_API_BASE env = None \/ INTERFAZE_API_BASE env = Some [] ->
      Ocr.endpoint env = lit "https://api.interfaze.ai/v1/chat/completions").
Proof.
  split; [reflexivity|].
  assert (Hdef : forall s, s <> [] -> or_default (Some s) (lit "https://api.interfaze.ai/v1") = s)
    by (intros [|x s] Hs; [congruence | reflexivity]).
  split; [|split].
  - intros b c Hc [Hb|Hb]; unfold Ocr.endpoint; rewrite Hb, Hdef;
      try (destruct b; discriminate).
    + rewrite (strip_trailing_slash_none b Hc), <- ?app_assoc. reflexivity.
    + rewrite app_assoc, strip_trailing_slash_added, <- ?app_assoc. reflexivity.
  - intros b Hb. unfold Ocr.endpoint. rewrite Hb, Hdef;
      try (destruct b; discriminate).
    rewrite app_assoc, strip_trailing_slash_added, <- ?app_assoc. reflexivity.
  - intros [Hb|Hb]; unfold Ocr.endpoint; rewrite Hb; reflexivity.
Qed.

Lemma endpoint_trailing_slash_witness :
  Ocr.endpoint Demo.env = lit "https://api.interfaze.ai/v1/chat/completions".
Proof.
  apply (proj2 (proj2 (proj2 (endpoint_trailing_slash Demo.env)))).
  left. reflexivity.
Defined.

Section WithRuntime.
Context `{Runtime}.

Lemma normalizeLanguage_tag v : language_tag (normalizeLanguage v) = true.
Proof.
  unfold normalizeLanguage. destruct v; try reflexivity.
  destruct (nonempty (trim s)); [|reflexivity].
  destruct (language_tag (toLowerCase (trim s))) eqn:E; [exact E | reflexivity].
Qed.

Lemma normalizeLanguage_lower v :
  toLowerCase (normalizeLanguage v) = normalizeLanguage v.
Proof.
  assert (Hen : toLowerCase (lit "en") = lit "en")
    by (rewrite (lower_ascii (lit "en") eq_refl); reflexivity).
  unfold normalizeLanguage. destruct v; try exact Hen.
  destruct (nonempty (trim s)); [|exact Hen].
  destruct (language_tag (toLowerCase (trim s))); [apply lower_idem | exact Hen].
Qed.

(** X7.  The pattern test of [normalizeLanguage] holds exactly of the
    strings made of two or three letters a-z followed by any number of
    groups of a hyphen and two to eight letters a-z or digits; the
    language [normalizeLanguage] gives is always such a string, whatever
    the input, and is left alone by [toLowerCase]. *)
Theorem normalizeLanguage_well_formed :
  (forall s,
     language_tag s = true
     <-> exists p ps,
          s = p ++ flat_map (cons 45%N) ps
          /\ primary_subtag p = true /\ forallb other_subtag ps = true)
  /\ (forall v,
        language_tag (normalizeLanguage v) = true
        /\ toLowerCase (normalizeLanguage v) = normalizeLanguage v).
Proof.
  split.
  - intros s. split; [apply language_tag_shape|].
    intros [p [ps [-> [Hp Hps]]]]. exact (language_tag_of_shape p ps Hp Hps).
  - intros v. split; [apply normalizeLanguage_tag | apply normalizeLanguage_lower].
Qed.

(** X2.  A parsed text that is not a record (null, a number, a string, a
    boolean, a list) is normalized to the default result. *)
Theorem normalizeResult_not_record raw :
  (forall fields, raw <> VObj fields) -> normalizeResult raw = DEFAULT_RESULT.
Proof.
  intros Hraw. destruct raw; try reflexivity.
  exfalso. exact (Hraw fields eq_refl).
Qed.

(** X3.  Reading a response never touches the network.  It raises only
    when the body of the response cannot be read as JSON; when the body is
    JSON, whatever it holds, a result is returned: the default result, or
    the normalization of the parsed text of the message. *)
Theorem readResponse_outcomes response w :
  snd (readResponse response w) = w
  /\ (forall e, fst (readResponse response w) = Thrown e ->
                e = BodyRejected
                /\ forall t, body response = Some t -> JSON_parse t = None)
  /\ (forall t payload,
        body response = Some t -> JSON_parse t = Some payload ->
        exists r,
          fst (readResponse response w) = Returned r
          /\ (r = DEFAULT_RESULT
              \/ exists raw,
                   JSON_parse (extractMessageContent payload) = Some raw
                   /\ r = normalizeResult raw)).
Proof.
  split; [apply FallbackClaims.readResponse_world|].
  unfold readResponse, response_json, bind, ret, throw. split.
  - intros e. destruct (body response) as [t|].
    + destruct (JSON_parse t) as [payload|] eqn:Ep.
      * destruct (nonempty (extractMessageContent payload));
          [destruct (JSON_parse (extractMessageContent payload))|]; discriminate.
      * simpl. intros E. injection E as <-. split; [reflexivity|].
        intros t' Ht'. injection Ht' as <-. exact Ep.
    + simpl. intros E. injection E as <-. split; [reflexivity|]. discriminate.
  - intros t payload -> ->.
    destruct (nonempty (extractMessageContent payload)).
    + destruct (JSON_parse (extractMessageContent payload)) as [raw|] eqn:Er;
        eexists; (split; [reflexivity|]).
      * right. exists raw. split; reflexivity.
      * left. reflexivity.
    + eexists. split; [reflexivity | left; reflexivity].
Qed.

(** X1.  [analyzeLabel] raises, with nothing sent, when the image
    reference is not a non-empty string, whether or not a key is
    configured; for a valid reference and no key (unset or empty) it
    returns the default result, with nothing sent. *)
Theorem analyzeLabel_guards env w :
  (forall image, (forall c u, image <> VStr (c :: u)) ->
                 analyzeLabel env image w = (Thrown ImageUrlRequired, w))
  /\ (forall c u,
        INTERFAZE_API_KEY env = None \/ INTERFAZE_API_KEY env = Some [] ->
        analyzeLabel env (VStr (c :: u)) w = (Returned DEFAULT_RESULT, w)).
Proof.
  split.
  - intros image Himage. unfold analyzeLabel.
    destruct image as [| | | |[|c u]| |]; try reflexivity.
    exfalso. exact (Himage c u eq_refl).
  - intros c u [Hk|Hk]; unfold analyzeLabel; rewrite Hk; reflexivity.
Qed.

Lemma split_on_app p a sep b :
  p sep = true ->
  split_on p (a ++ sep :: b) = split_on p a ++ split_on p b.
Proof.
  intros Hsep. induction a as [|c a IH]; simpl.
  - rewrite Hsep. reflexivity.
  - rewrite IH. destruct (p c); [reflexivity|].
    destruct (split_on p a) as [|f fs] eqn:E; [|reflexivity].
    exfalso. exact (split_on_nonnil p a E).
Qed.

Lemma fragments_app a sep b :
  is_sep sep = true ->
  fragments (a ++ sep :: b) = fragments a ++ fragments b.
Proof.
  intros Hsep. unfold fragments.
  rewrite (@split_on_app is_sep a sep b Hsep), map_app, filter_app. reflexivity.
Qed.

Lemma fragments_join sep x xs :
  is_sep sep = true ->
  fragments (join sep (x :: xs)) = flat_map fragments (x :: xs).
Proof.
  intros Hsep. revert x. induction xs as [|y ys IH]; intros x.
  - simpl. rewrite !app_nil_r. reflexivity.
  - change (join sep (x :: y :: ys)) with (x ++ sep :: join sep (y :: ys)).
    rewrite (@fragments_app x sep (join sep (y :: ys)) Hsep), IH. reflexivity.
Qed.

Lemma strings_of_strings l : strings_of (map VStr l) = l.
Proof. induction l as [|s l IH]; simpl; congruence. Qed.

(** X19.  A list of strings is normalized like the one string made of them
    joined by a separator (a line feed, a bullet, a comma or a
    semicolon). *)
Theorem normalizeIngredients_join sep l :
  is_sep sep = true ->
  normalizeIngredients (VArr (map VStr l))
  = normalizeIngredients (VStr (join sep l)).
Proof.
  intros Hsep.
  rewrite IngredientClaims.normalizeIngredients_list,
    IngredientClaims.normalizeIngredients_string, strings_of_strings.
  destruct l as [|x xs].
  - simpl. unfold fragments. simpl. rewrite OcrIngredients.toLowerCase_nil.
    reflexivity.
  - rewrite (@fragments_join sep x xs Hsep). reflexivity.
Qed.

Lemma capped_unit v :
  in_unit_interval (Math_min (normalizeConfidence v) ExtractionClaims.one_fifth).
Proof.
  destruct (ConfidenceClaims.normalizeConfidence_thousandths v) as [k [Hk ->]].
  assert (Hc := ExtractionClaims.cap_ok_range Hk).
  unfold ExtractionClaims.cap_ok in Hc.
  rewrite !andb_true_iff in Hc. destruct Hc as [[[_ Hm] _] _].
  apply sf_eqb_eq in Hm. rewrite Hm.
  destruct (k <=? 200)%Z.
  - exact (thousandth_unit Hk).
  - change ExtractionClaims.one_fifth with (decimal 200 1000).
    apply thousandth_unit. lia.
Qed.

Lemma normalizeSections_tidy v :
  match warnings (normalizeSections v) with Some w => tidy w | None => True end
  /\ match claims (normalizeSections v) with
     | Some cs => cs <> [] /\ Forall tidy cs
     | None => True
     end.
Proof.
  unfold normalizeSections.
  destruct (falsy v || negb (typeof_object v)); simpl; [split; exact I|].
  split.
  - destruct (get v "warnings"); try exact I.
    destruct (nonempty (trim s)) eqn:E; [|exact I].
    split; [apply trim_idem | apply nonempty_true; exact E].
  - destruct (get v "claims"); try exact I.
    assert (Ht := keep_claims_tidy elems).
    destruct (keep_claims elems); [exact I|]. split; [discriminate | exact Ht].
Qed.

(** The shape every result of the extraction has. *)
Definition conformant (r : OCRResult) : Prop :=
  NoDup (ingredients r)
  /\ Forall normal_ingredient (ingredients r)
  /\ in_unit_interval (confidence r)
  /\ (ingredients r = [] -> leb (confidence r) ExtractionClaims.one_fifth = true)
  /\ language_tag (language r) = true
  /\ match warnings (sections r) with Some w => tidy w | None => True end
  /\ match claims (sections r) with
     | Some cs => cs <> [] /\ Forall tidy cs
     | None => True
     end.

Lemma DEFAULT_RESULT_conformant : conformant DEFAULT_RESULT.
Proof.
  unfold conformant. simpl. repeat split; try constructor.
  exists 0%Q. repeat split; discriminate.
Qed.

Lemma normalizeResult_conformant raw : conformant (normalizeResult raw).
Proof.
  rewrite IdempotenceClaims.normalizeResult_fields. unfold conformant.
  cbn [ingredients confidence language sections].
  split; [apply OcrIngredients.normalizeIngredients_NoDup|].
  split; [apply OcrIngredients.normalizeIngredients_normal|].
  split.
  { destruct (normalizeIngredients (get_opt raw "ingredients"));
      [apply capped_unit|].
    destruct (ConfidenceClaims.normalizeConfidence_thousandths
                (get_opt raw "confidence")) as [k [Hk ->]].
    exact (thousandth_unit Hk). }
  split.
  { intros ->. exact (proj1 (ExtractionClaims.cap_facts (get_opt raw "confidence"))). }
  split; [apply normalizeLanguage_tag|].
  apply normalizeSections_tidy.
Qed.

(** X8.  Every result [analyzeLabel] returns, whatever the replies of the
    provider hold, has ingredients without duplicates that are not empty,
    free of separators, trimmed and lowercase, a confidence between 0 and
    1 that is at most 0.2 when there is no ingredient, a well-formed
    language tag, and warnings and claims that, when present, are trimmed
    and not empty, the claims being at least one. *)
Theorem analyzeLabel_conformant env image w r w' :
  analyzeLabel env image w = (Returned r, w') -> conformant r.
Proof.
  intros Hrun.
  destruct (ExtractionClaims.analyzeLabel_returns env image w Hrun)
    as [->|[raw ->]].
  - exact DEFAULT_RESULT_conformant.
  - apply normalizeResult_conformant.
Qed.

End WithRuntime.

Lemma normalizeResult_not_record_witness :
  @normalizeResult Demo.runtime VNull = DEFAULT_RESULT.
Proof. apply normalizeResult_not_record. discriminate. Defined.

Lemma readResponse_outcomes_witness :
  exists r,
    fst (@readResponse Demo.runtime Demo.success (Demo.script [])) = Returned r.
Proof.
  destruct (proj2 (proj2 (@readResponse_outcomes Demo.runtime Demo.success
                            (Demo.script [])))
              (lit "payload") (Demo.chat_payload (lit "content"))
              eq_refl eq_refl) as [r [Hr _]].
  exists r. exact Hr.
Defined.

Lemma analyzeLabel_guards_witness :
  @analyzeLabel Demo.runtime Demo.env (VStr []) (Demo.script [])
  = (Thrown ImageUrlRequired, Demo.script []).
Proof.
  apply (proj1 (@analyzeLabel_guards Demo.runtime Demo.env (Demo.script []))).
  discriminate.
Defined.

Lemma normalizeIngredients_join_witness :
  @normalizeIngredients Demo.runtime (VArr (map VStr [lit "Salt"; lit "salt, Oil"]))
  = @normalizeIngredients Demo.runtime (VStr (join 10%N [lit "Salt"; lit "salt, Oil"])).
Proof. apply normalizeIngredients_join. reflexivity. Defined.

Lemma analyzeLabel_conformant_witness :
  @conformant Demo.runtime DEFAULT_RESULT.
Proof.
  apply (@analyzeLabel_conformant Demo.runtime Demo.env (VStr (lit "image"))
           (Demo.script [Responds Demo.success]) DEFAULT_RESULT
           (after (Demo.script [])
              [schemaRequest Demo.env (lit "key") (lit "image")] [])).
  vm_compute. reflexivity.
Defined.

End ExtractionFacts.

(** ** The explanation client beyond the claims *)

Module ExplanationFacts.
Import Explain Wording.


Lemma first_seen_hd x l : hd [] (first_seen (x :: l)) = x.
Proof. reflexivity. Qed.





(** X18.  Every item [normalizeItems] produces has a certainty between 0
    and 1 and only sources whose trimmed text is not empty, and there are
    no more items than elements in the list given. *)
Theorem normalizeItems_invariant raw :
  Forall (fun it =>
            in_unit_interval (certainty it)
            /\ Forall (fun s => trim s <> []) (sources it))
    (normalizeItems raw)
  /\ (length (normalizeItems raw) <= length (list_of raw))%nat.
Proof.
  destruct raw; try (split; [constructor | simpl; lia]).
  rewrite ExplanationClaims.normalizeItems_list. split.
  - apply Forall_forall. intros it Hit. apply in_map_iff in Hit.
    destruct Hit as [entry [<- _]]. split.
    + destruct (ConfidenceClaims.normalizeConfidence_thousandths
                  (get entry "certainty")) as [k [Hk Hc]].
      unfold item_of. cbn [certainty].
      change (normalizeCertainty (get entry "certainty"))
        with (Ocr.normalizeConfidence (get entry "certainty")).
      rewrite Hc. exact (thousandth_unit Hk).
    + apply Forall_forall. intros s Hs. apply filter_In in Hs.
      apply nonempty_true. tauto.
  - rewrite length_map. apply filter_length_le.
Qed.

(** X12.  A parsed text that is neither a record nor [null] gives the
    default explanation; [null] makes the construction raise, whereas the
    extraction normalizes [null] to its default result. *)
Theorem shapeResult_not_record `{Runtime} w :
  (forall raw, raw <> VNull -> (forall fields, raw <> VObj fields) ->
               shapeResult raw w = (Returned DEFAULT_RESULT, w))
  /\ shapeResult VNull w = (Thrown NullDereference, w)
  /\ Ocr.normalizeResult VNull = Ocr.DEFAULT_RESULT.
Proof.
  split; [|split; reflexivity].
  intros raw Hnull Hrec. destruct raw; try reflexivity.
  - congruence.
  - exfalso. exact (Hrec fields eq_refl).
Qed.

Lemma shapeResult_not_record_witness :
  shapeResult (VArr []) (Demo.script []) = (Returned DEFAULT_RESULT, Demo.script []).
Proof.
  apply (proj1 (@shapeResult_not_record Demo.runtime (Demo.script [])));
    discriminate.
Defined.





Section WithRuntime.
Context `{Runtime}.







End WithRuntime.




End ExplanationFacts.

(** ** The domain lookup beyond the claims *)

Module FetchJsonFacts.
Import FetchJson Wording.
Section WithRuntime.
Context `{Runtime}.

Lemma rethrow_wraps (A : Type) e w e' w' :
  @rethrow A e w = (Thrown e', w') ->
  w' = w /\ (e' = TimedOut \/ e' = FetchJsonFailed e).
Proof.
  unfold rethrow, throw. destruct e; try (intros E; injection E as <- <-; tauto).
  destruct (str_eqb name (lit "AbortError")); intros E; injection E as <- <-; tauto.
Qed.

Lemma rethrow_throws (A : Type) e w : exists e', @rethrow A e w = (Thrown e', w).
Proof.
  unfold rethrow, throw. destruct e; try (eexists; reflexivity).
  destruct (str_eqb name (lit "AbortError")); eexists; reflexivity.
Qed.

(** X16.  For a URL let through, [fetch_json] sends exactly one request
    and consumes one reply, whatever the reply.  Every error it raises is
    the refusal of the URL, the timeout, or an error wrapped under its own
    name; an aborted request is reported as the timeout, and any other
    rejection of the request is wrapped. *)
Theorem fetch_json_outcomes url headers w :
  (isWhitelisted url = true ->
   snd (fetch_json url headers w) = after w [Get url headers] (tl (pending w)))
  /\ (forall e, fst (fetch_json url headers w) = Thrown e ->
                e = UrlNotAllowed url \/ e = TimedOut
                \/ exists cause, e = FetchJsonFailed cause)
  /\ (forall message rest,
        isWhitelisted url = true ->
        pending w = Rejects (lit "AbortError") message :: rest ->
        fst (fetch_json url headers w) = Thrown TimedOut)
  /\ (forall name message rest,
        isWhitelisted url = true ->
        pending w = Rejects name message :: rest ->
        name <> lit "AbortError" ->
        fst (fetch_json url headers w)
        = Thrown (FetchJsonFailed (Rejected name message))).
Proof.
  unfold fetch_json. split; [|split; [|split]].
  - intros ->. cbn [negb]. unfold try_catch, bind, fetch.
    destruct (pending w) as [|[r|name message] p]; cbv beta iota zeta.
    + destruct (rethrow_throws value
                  (Rejected (lit "TypeError") (lit "fetch failed"))
                  {| pending := tl []; sent := sent w ++ [Get url headers] |})
        as [e' ->]. reflexivity.
    + destruct (negb (ok r)); [reflexivity|].
      destruct (negb (is_json_type r)); [reflexivity|].
      unfold response_json. destruct (body r) as [t|]; [|reflexivity].
      destruct (JSON_parse t); reflexivity.
    + destruct (rethrow_throws value (Rejected name message)
                  {| pending := tl (Rejects name message :: p);
                     sent := sent w ++ [Get url headers] |})
        as [e' ->]. reflexivity.
  - intros e. destruct (negb (isWhitelisted url)).
    + simpl. intros E. left. congruence.
    + unfold try_catch.
      destruct ((response <- fetch (Get url headers);;
                 (if negb (ok response)
                  then throw (HttpError (status response) (statusText response))
                  else if negb (is_json_type response) then throw NotJson
                       else response_json response)) w) as [[v|e0] w1];
        [discriminate|].
      destruct (rethrow_throws value e0 w1) as [e' He'].
      rewrite He'. simpl. intros E. injection E as <-.
      destruct (@rethrow_wraps value e0 w1 e' w1 He') as [_ [->| ->]];
        [tauto | right; right; eexists; reflexivity].
  - intros message rest -> Hw. cbn [negb]. unfold try_catch, bind, fetch.
    rewrite Hw. reflexivity.
  - intros name message rest -> Hw Hname. cbn [negb].
    unfold try_catch, bind, fetch. rewrite Hw. cbv beta iota zeta.
    unfold rethrow. rewrite (proj2 (str_eqb_neq _ _) Hname). reflexivity.
Qed.

End WithRuntime.

Lemma fetch_json_outcomes_witness :
  fst (@fetch_json Demo.runtime (lit "https://world.openfoodfacts.org/cgi/search.pl") []
         (Demo.script [Rejects (lit "AbortError") (lit "aborted")]))
  = Thrown TimedOut.
Proof.
  apply (proj1 (proj2 (proj2
           (@fetch_json_outcomes Demo.runtime
              (lit "https://world.openfoodfacts.org/cgi/search.pl") []
              (Demo.script [Rejects (lit "AbortError") (lit "aborted")]))))
           (lit "aborted") []); reflexivity.
Defined.

End FetchJsonFacts.

(** ** The context of the explanation request: glossary and risk rules *)

Module ContextFacts.
Import ExplainContext.

(** The table a loop builds that assigns [f k] at each key [k] of a list
    for which [f] gives something. *)
Definition build {V} (f : jsstring -> option V) (keys : list jsstring)
    (obj : table V) : table V :=
  fold_left (fun obj k =>
               match f k with
               | Some v => assign obj k v
               | None => obj
               end) keys obj.

Lemma own_put {V} (obj : table V) k v k' :
  own (put obj k v) k' = if str_eqb k' k then Some v else own obj k'.
Proof.
  induction obj as [|[k0 v0] obj IH]; simpl.
  - reflexivity.
  - destruct (str_eqb_spec k k0) as [->|Hk]; simpl.
    + destruct (str_eqb k' k0); reflexivity.
    + rewrite IH. destruct (str_eqb_spec k' k0) as [->|Hk']; [|reflexivity].
      destruct (str_eqb_spec k0 k); [congruence | reflexivity].
Qed.

Lemma own_assign {V} (obj : table V) k v k' :
  k' <> lit "__proto__" ->
  own (assign obj k v) k' = if str_eqb k' k then Some v else own obj k'.
Proof.
  intros Hk'. unfold assign.
  destruct (str_eqb_spec k (lit "__proto__")) as [->|Hk]; [|apply own_put].
  destruct (str_eqb_spec k' (lit "__proto__")); [congruence | reflexivity].
Qed.

Lemma own_assign_proto {V} (obj : table V) k v :
  own (assign obj k v) (lit "__proto__") = own obj (lit "__proto__").
Proof.
  unfold assign. destruct (str_eqb_spec k (lit "__proto__")) as [->|Hk];
    [reflexivity|].
  rewrite own_put. destruct (str_eqb_spec (lit "__proto__") k);
    [congruence | reflexivity].
Qed.

Lemma own_build {V} (f : jsstring -> option V) keys : forall obj k,
  k <> lit "__proto__" ->
  own (build f keys obj) k
  = match (if set_has keys k then f k else None) with
    | Some v => Some v
    | None => own obj k
    end.
Proof.
  unfold build. induction keys as [|k0 keys IH]; intros obj k Hk; simpl.
  - reflexivity.
  - rewrite IH by exact Hk.
    destruct (str_eqb_spec k k0) as [->|Hk0]; simpl.
    + destruct (f k0) as [v|] eqn:Ef.
      * rewrite own_assign, str_eqb_refl by exact Hk.
        destruct (set_has keys k0); reflexivity.
      * destruct (set_has keys k0); reflexivity.
    + destruct (f k0) as [v|]; [|reflexivity].
      rewrite own_assign by exact Hk.
      rewrite (proj2 (str_eqb_neq _ _) Hk0). reflexivity.
Qed.

Lemma own_build_proto {V} (f : jsstring -> option V) keys : forall obj,
  own (build f keys obj) (lit "__proto__") = own obj (lit "__proto__").
Proof.
  unfold build. induction keys as [|k0 keys IH]; intros obj; simpl;
    [reflexivity|].
  rewrite IH. destruct (f k0); [apply own_assign_proto | reflexivity].
Qed.

Lemma includes_nil s : includes s [] = true.
Proof. destruct s as [|c s]; reflexivity. Qed.

Section WithRuntime.
Context `{Runtime}.

Definition glossary_entry (glossary : list GlossaryEntry) (k : jsstring)
  : option GlossaryEntry :=
  find (entry_matches (toLowerCase k)) glossary.

Definition risk_hits (rules : list RiskRule) (k : jsstring)
  : option (list RiskRule) :=
  match filter (rule_applies (toLowerCase k)) rules with
  | [] => None
  | hit :: hits => Some (hit :: hits)
  end.

Lemma matchGlossaryEntries_build ingredients glossary :
  matchGlossaryEntries ingredients glossary
  = build (glossary_entry glossary) ingredients [].
Proof. reflexivity. Qed.

Lemma applyRiskRules_build ingredients rules :
  applyRiskRules ingredients rules = build (risk_hits rules) ingredients [].
Proof.
  unfold applyRiskRules, build. generalize (@nil (jsstring * list RiskRule)).
  induction ingredients as [|k ks IH]; intros obj; simpl; [reflexivity|].
  rewrite <- IH. f_equal. unfold risk_hits.
  destruct (filter (rule_applies (toLowerCase k)) rules); reflexivity.
Qed.

(** X13.  In the table of glossary matches, the entry under an ingredient
    of the list is the first entry of the glossary whose name or one of
    whose synonyms equals the ingredient once both are lowercased, and
    there is none when no entry does; a string that is not an ingredient
    of the list has no entry, and neither has the key [__proto__]; two
    ingredients of the list that differ only by case have the same
    entry. *)
Theorem matchGlossaryEntries_spec ingredients glossary :
  (forall k, k <> lit "__proto__" ->
     own (matchGlossaryEntries ingredients glossary) k
     = if set_has ingredients k
       then find (entry_matches (toLowerCase k)) glossary
       else None)
  /\ own (matchGlossaryEntries ingredients glossary) (lit "__proto__") = None
  /\ (forall k e,
        own (matchGlossaryEntries ingredients glossary) k = Some e ->
        In k ingredients /\ In e glossary
        /\ entry_matches (toLowerCase k) e = true)
  /\ (forall k k',
        In k ingredients -> In k' ingredients ->
        k <> lit "__proto__" -> k' <> lit "__proto__" ->
        toLowerCase k = toLowerCase k' ->
        own (matchGlossaryEntries ingredients glossary) k
        = own (matchGlossaryEntries ingredients glossary) k').
Proof.
  rewrite matchGlossaryEntries_build.
  assert (Hown : forall k, k <> lit "__proto__" ->
     own (build (glossary_entry glossary) ingredients []) k
     = if set_has ingredients k
       then find (entry_matches (toLowerCase k)) glossary
       else None).
  { intros k Hk. rewrite own_build by exact Hk. unfold glossary_entry.
    destruct (set_has ingredients k); [|reflexivity].
    destruct (find _ glossary); reflexivity. }
  split; [exact Hown|].
  split; [rewrite own_build_proto; reflexivity|].
  split.
  - intros k e He.
    destruct (str_eqb_spec k (lit "__proto__")) as [->|Hk].
    + rewrite own_build_proto in He. discriminate.
    + rewrite (Hown k Hk) in He.
      destruct (set_has ingredients k) eqn:Ek; [|discriminate].
      apply set_has_In in Ek. apply find_some in He. tauto.
  - intros k k' Hin Hin' Hk Hk' Hlow.
    rewrite (Hown k Hk), (Hown k' Hk').
    rewrite (proj2 (set_has_In _ _) Hin), (proj2 (set_has_In _ _) Hin'), Hlow.
    reflexivity.
Qed.

(** X14.  In the table of risk matches, the rules under an ingredient of
    the list are, in the order of the rule list, the rules one of whose
    [applies_to] names equals the ingredient once both are lowercased or
    whose lowercased pattern occurs in the lowercased ingredient; an
    ingredient without such a rule has no entry (never an empty list),
    and neither has the key [__proto__]; a rule whose pattern is the empty
    string is a hit for every ingredient. *)
Theorem applyRiskRules_spec ingredients rules :
  (forall k, k <> lit "__proto__" ->
     own (applyRiskRules ingredients rules) k
     = if set_has ingredients k
       then match filter (rule_applies (toLowerCase k)) rules with
            | [] => None
            | hit :: hits => Some (hit :: hits)
            end
       else None)
  /\ own (applyRiskRules ingredients rules) (lit "__proto__") = None
  /\ (forall k hits,
        own (applyRiskRules ingredients rules) k = Some hits ->
        In k ingredients /\ hits <> []
        /\ hits = filter (rule_applies (toLowerCase k)) rules)
  /\ (forall rule k,
        In rule rules -> pattern rule = [] ->
        In k ingredients -> k <> lit "__proto__" ->
        exists hits,
          own (applyRiskRules ingredients rules) k = Some hits /\ In rule hits).
Proof.
  rewrite applyRiskRules_build.
  assert (Hown : forall k, k <> lit "__proto__" ->
     own (build (risk_hits rules) ingredients []) k
     = if set_has ingredients k then risk_hits rules k else None).
  { intros k Hk. rewrite own_build by exact Hk.
    destruct (set_has ingredients k); [|reflexivity].
    destruct (risk_hits rules k); reflexivity. }
  split; [exact Hown|].
  split; [rewrite own_build_proto; reflexivity|].
  split.
  - intros k hits Hh.
    destruct (str_eqb_spec k (lit "__proto__")) as [->|Hk].
    + rewrite own_build_proto in Hh. discriminate.
    + rewrite (Hown k Hk) in Hh.
      destruct (set_has ingredients k) eqn:Ek; [|discriminate].
      apply set_has_In in Ek. unfold risk_hits in Hh.
      destruct (filter (rule_applies (toLowerCase k)) rules) eqn:Ef;
        [discriminate|].
      injection Hh as <-. split; [exact Ek|]. split; [discriminate | reflexivity].
  - intros rule k Hrule Hpat Hin Hk.
    rewrite (Hown k Hk), (proj2 (set_has_In _ _) Hin). unfold risk_hits.
    assert (Hhit : In rule (filter (rule_applies (toLowerCase k)) rules)).
    { apply filter_In. split; [exact Hrule|]. unfold rule_applies.
      rewrite Hpat, OcrIngredients.toLowerCase_nil, includes_nil.
      destruct (applies_to rule) as [names|]; [|reflexivity].
      destruct (existsb _ names); reflexivity. }
    destruct (filter (rule_applies (toLowerCase k)) rules) as [|hit hits];
      [destruct Hhit|].
    exists (hit :: hits). split; [reflexivity | exact Hhit].
Qed.

End WithRuntime.

Definition sugar_entry : GlossaryEntry := {|
  name := lit "Sugar";
  synonyms := Some [lit "Sucrose"];
  description := None;
  common_uses := None
|}.

Definition catch_all : RiskRule := {|
  pattern := [];
  risk_level := Explain.Unknown;
  reason := lit "unreviewed";
  applies_to := None
|}.

Lemma matchGlossaryEntries_spec_witness :
  In (lit "sucrose") [lit "sucrose"]
  /\ In sugar_entry [sugar_entry]
  /\ @entry_matches Demo.runtime (@toLowerCase AsciiCase.ascii_case (lit "sucrose"))
       sugar_entry = true.
Proof.
  apply (proj1 (proj2 (proj2
           (@matchGlossaryEntries_spec Demo.runtime [lit "sucrose"] [sugar_entry])))).
  reflexivity.
Defined.

Lemma applyRiskRules_spec_witness :
  exists hits,
    own (@applyRiskRules Demo.runtime [lit "water"] [catch_all]) (lit "water")
    = Some hits
    /\ In catch_all hits.
Proof.
  apply (proj2 (proj2 (proj2
           (@applyRiskRules_spec Demo.runtime [lit "water"] [catch_all])))).
  - left. reflexivity.
  - reflexivity.
  - left. reflexivity.
  - discriminate.
Defined.

End ContextFacts.

(** ** The external lookups *)

Module LookupFacts.
Import ExplainContext Wording.

Lemma compare_refl x : compare x x = None \/ compare x x = Some Eq.
Proof.
  destruct x as [s|s| |s m e]; simpl; try (left; reflexivity);
    try (destruct s; right; reflexivity).
  right. f_equal. apply Qeq_alt. reflexivity.
Qed.

Lemma ltb_irrefl x : ltb x x = false.
Proof.
  unfold ltb. destruct (compare_refl x) as [-> | ->]; reflexivity.
Qed.

Lemma compare_antisym x y :
  compare y x = match compare x y with
                | Some c => Some (CompOpp c)
                | None => None
                end.
Proof.
  destruct x as [sx|sx| |sx mx ex], y as [sy|sy| |sy my ey];
    try reflexivity;
    try (destruct sx; reflexivity);
    try (destruct sy; reflexivity);
    try (destruct sx, sy; reflexivity);
    unfold compare, to_Q; rewrite <- Qcompare_antisym; reflexivity.
Qed.

Lemma ltb_asym x y : ltb x y = true -> ltb y x = false.
Proof.
  unfold ltb. rewrite (compare_antisym x y).
  destruct (compare x y) as [[| |]|]; simpl; congruence.
Qed.

(** The smaller of two numbers is not above the second. *)
Lemma Math_min_not_above x y : ltb y (Math_min x y) = false.
Proof.
  unfold Math_min.
  destruct (isNaN x || isNaN y);
    [destruct y; reflexivity|].
  destruct (ltb x y) eqn:Exy; [exact (ltb_asym x y Exy)|].
  destruct (ltb y x) eqn:Eyx; [apply ltb_irrefl|].
  destruct (is_neg_zero x); [exact Eyx|].
  destruct (is_neg_zero y); [apply ltb_irrefl | exact Eyx].
Qed.

(** The smaller of two numbers is not above the first. *)
Lemma Math_min_not_above_l x y : ltb x (Math_min x y) = false.
Proof.
  unfold Math_min.
  destruct (isNaN x || isNaN y); [destruct x; reflexivity|].
  destruct (ltb x y) eqn:Exy; [apply ltb_irrefl|].
  destruct (ltb y x) eqn:Eyx; [exact Exy|].
  destruct (is_neg_zero x); [apply ltb_irrefl|].
  destruct (is_neg_zero y); [exact Exy | apply ltb_irrefl].
Qed.

Section WithRuntime.
Context `{Runtime}.
Variable encodeURIComponent : jsstring -> option jsstring.
Variable Number_of_string : jsstring -> number.

Lemma fetch_json_world url headers w :
  exists reqs,
    (length reqs <= 1)%nat
    /\ sent (snd (FetchJson.fetch_json url headers w)) = sent w ++ reqs.
Proof.
  unfold FetchJson.fetch_json. destruct (FetchJson.isWhitelisted url); simpl.
  - exists [Get url headers]. split; [simpl; lia|].
    unfold try_catch, bind, fetch.
    destruct (pending w) as [|[r|name message] p]; cbv beta iota zeta.
    + destruct (FetchJsonFacts.rethrow_throws value
                  (Rejected (lit "TypeError") (lit "fetch failed"))
                  {| pending := tl []; sent := sent w ++ [Get url headers] |})
        as [e' ->]. reflexivity.
    + destruct (negb (ok r)); [reflexivity|].
      destruct (negb (FetchJson.is_json_type r)); [reflexivity|].
      unfold response_json. destruct (body r) as [t|]; [|reflexivity].
      destruct (JSON_parse t); reflexivity.
    + destruct (FetchJsonFacts.rethrow_throws value (Rejected name message)
                  {| pending := tl (Rejects name message :: p);
                     sent := sent w ++ [Get url headers] |})
        as [e' ->]. reflexivity.
  - exists []. split; [simpl; lia|]. rewrite app_nil_r. reflexivity.
Qed.

(** One turn of the loop: the lookup with its [try] block. *)
Definition lookup_once (domain : Ocr.Domain) (item encoded : jsstring)
    (records : list ExternalRecord) : M (list ExternalRecord) :=
  try_catch
    (found <- FetchJson.fetch_json (search_url domain encoded)
                [(lit "User-Agent", lit "Lablr-Agent")] ;;
     ret (records ++ [{| ingredient := item;
                         source := baseDomain domain;
                         data := found |}]))
    (fun _ => ret records).

Lemma lookup_once_returns domain item encoded records w :
  exists records' reqs,
    lookup_once domain item encoded records w
    = (Returned records',
       snd (FetchJson.fetch_json (search_url domain encoded)
              [(lit "User-Agent", lit "Lablr-Agent")] w))
    /\ (records' = records
        \/ exists found,
             records' = records ++ [{| ingredient := item;
                                       source := baseDomain domain;
                                       data := found |}])
    /\ (length reqs <= 1)%nat
    /\ sent (snd (FetchJson.fetch_json (search_url domain encoded)
                    [(lit "User-Agent", lit "Lablr-Agent")] w))
       = sent w ++ reqs.
Proof.
  destruct (fetch_json_world (search_url domain encoded)
              [(lit "User-Agent", lit "Lablr-Agent")] w) as [reqs [Hl Hs]].
  unfold lookup_once, try_catch, bind, ret.
  destruct (FetchJson.fetch_json (search_url domain encoded)
              [(lit "User-Agent", lit "Lablr-Agent")] w) as [[found|e] w1].
  - eexists. exists reqs. split; [reflexivity|].
    split; [right; exists found; reflexivity|]. split; assumption.
  - eexists. exists reqs. split; [reflexivity|].
    split; [left; reflexivity|]. split; assumption.
Qed.

(** A record of the loop: about an ingredient still to come, from the
    provider of the domain. *)
Definition record_of (domain : Ocr.Domain) (items : list jsstring)
    (r : ExternalRecord) : Prop :=
  In (ingredient r) items /\ source r = baseDomain domain.

Lemma lookups_step domain limit index item rest records w :
  lookups encodeURIComponent domain limit index (item :: rest) records w
  = if ltb (of_Z index) limit then
      match encodeURIComponent item with
      | None => (Thrown (Rejected (lit "URIError") (lit "URI malformed")), w)
      | Some encoded =>
          match lookup_once domain item encoded records w with
          | (Returned records', w') =>
              lookups encodeURIComponent domain limit (index + 1) rest records' w'
          | (Thrown e, w') => (Thrown e, w')
          end
      end
    else (Returned records, w).
Proof.
  simpl lookups. destruct (ltb (of_Z index) limit); [|reflexivity].
  destruct (encodeURIComponent item); reflexivity.
Qed.

Lemma lookups_sent domain limit bound remaining : forall index records w,
  (index <= bound)%Z -> ltb (of_Z bound) limit = false ->
  exists reqs,
    sent (snd (lookups encodeURIComponent domain limit index remaining records w))
    = sent w ++ reqs
    /\ (Z.of_nat (length reqs) <= bound - index)%Z
    /\ (length reqs <= length remaining)%nat.
Proof.
  induction remaining as [|item rest IH]; intros index records w Hi Hb.
  - exists []. simpl. rewrite app_nil_r. split; [reflexivity|]. split; lia.
  - rewrite lookups_step. destruct (ltb (of_Z index) limit) eqn:El.
    + assert (Hlt : (index < bound)%Z).
      { destruct (Z.eq_dec index bound) as [->|Hne]; [congruence | lia]. }
      destruct (encodeURIComponent item) as [encoded|].
      * destruct (lookup_once_returns domain item encoded records w)
          as [records' [reqs [-> [_ [Hl Hs]]]]].
        destruct (IH (index + 1)%Z records'
                    (snd (FetchJson.fetch_json (search_url domain encoded)
                            [(lit "User-Agent", lit "Lablr-Agent")] w)))
          as [reqs' [Hs' [Hb' Hl']]]; [lia | exact Hb |].
        exists (reqs ++ reqs'). rewrite Hs', Hs, app_assoc.
        split; [reflexivity|]. rewrite length_app. simpl. split; lia.
      * exists []. simpl. rewrite app_nil_r. split; [reflexivity|]. split; lia.
    + exists []. simpl. rewrite app_nil_r. split; [reflexivity|]. split; lia.
Qed.

Lemma lookups_returns domain limit remaining : forall index records w,
  (forall item, In item remaining -> encodeURIComponent item <> None) ->
  exists added w',
    lookups encodeURIComponent domain limit index remaining records w
    = (Returned (records ++ added), w')
    /\ Forall (record_of domain remaining) added
    /\ (length added <= length remaining)%nat.
Proof.
  induction remaining as [|item rest IH]; intros index records w Henc.
  - exists [], w. simpl. rewrite app_nil_r. split; [reflexivity|].
    split; [constructor | lia].
  - rewrite lookups_step. destruct (ltb (of_Z index) limit).
    + destruct (encodeURIComponent item) as [encoded|] eqn:Ee;
        [|exfalso; exact (Henc item (or_introl eq_refl) Ee)].
      destruct (lookup_once_returns domain item encoded records w)
        as [records' [reqs [-> [Hrec _]]]].
      destruct (IH (index + 1)%Z records'
                  (snd (FetchJson.fetch_json (search_url domain encoded)
                          [(lit "User-Agent", lit "Lablr-Agent")] w)))
        as [added [w' [-> [Hall Hlen]]]].
      { intros it Hit. apply Henc. right. exact Hit. }
      assert (Hall' : Forall (record_of domain (item :: rest)) added).
      { eapply Forall_impl; [|exact Hall]. intros r [Hin Hsrc].
        split; [right; exact Hin | exact Hsrc]. }
      destruct Hrec as [->|[found ->]].
      * exists added, w'. split; [reflexivity|].
        split; [exact Hall' | simpl; lia].
      * exists ({| ingredient := item; source := baseDomain domain;
                   data := found |} :: added), w'.
        rewrite <- app_assoc. split; [reflexivity|]. split.
        -- constructor; [|exact Hall']. split; [left|]; reflexivity.
        -- simpl. lia.
    + exists [], w. rewrite app_nil_r. split; [reflexivity|].
      split; [constructor | simpl; lia].
Qed.

(** X15.  [fetchExternalRecords] returns no record and sends nothing when
    the feature flag is not the word true (in any case) or there is no
    ingredient.  Otherwise, when every ingredient can be encoded, it
    returns whatever the replies are, a failed lookup leaving the records
    as they were; every record is about an ingredient of the list and
    names the provider of the domain; there are no more records than
    ingredients.  Whether it returns or raises, it sends at most one
    request per ingredient, at most [bound] requests when [bound] is not
    below the limit, and hence at most three when no limit is
    configured. *)
Theorem fetchExternalRecords_spec settings ingredients domain w :
  (shouldFetchExternally settings = false \/ ingredients = [] ->
   fetchExternalRecords encodeURIComponent Number_of_string settings
     ingredients domain w = (Returned [], w))
  /\ ((forall item, In item ingredients -> encodeURIComponent item <> None) ->
      exists records w',
        fetchExternalRecords encodeURIComponent Number_of_string settings
          ingredients domain w = (Returned records, w')
        /\ Forall (record_of domain ingredients) records
        /\ (length records <= length ingredients)%nat)
  /\ (exists reqs,
        sent (snd (fetchExternalRecords encodeURIComponent Number_of_string
                     settings ingredients domain w)) = sent w ++ reqs
        /\ (length reqs <= length ingredients)%nat
        /\ (forall bound,
              (0 <= bound)%Z ->
              ltb (of_Z bound)
                (fetch_limit Number_of_string settings (length ingredients))
              = false ->
              (Z.of_nat (length reqs) <= bound)%Z)
        /\ (OFF_FETCH_LIMIT settings = None -> (length reqs <= 3)%nat)).
Proof.
  unfold fetchExternalRecords. split; [|split].
  - intros [Hs| ->].
    + rewrite Hs. reflexivity.
    + rewrite orb_true_r. reflexivity.
  - intros Henc.
    destruct (negb (shouldFetchExternally settings)
              || (length ingredients =? 0)%nat).
    + exists [], w. split; [reflexivity|]. split; [apply Forall_nil | simpl; lia].
    + destruct (@lookups_returns domain
                  (fetch_limit Number_of_string settings (length ingredients))
                  ingredients 0%Z [] w Henc) as [added [w' [E [Hall Hlen]]]].
      exists added, w'. split; [exact E|]. split; assumption.
  - destruct (negb (shouldFetchExternally settings)
              || (length ingredients =? 0)%nat).
    + exists []. simpl. rewrite app_nil_r. split; [reflexivity|].
      split; [lia|]. split; [intros; lia | intros; lia].
    + assert (Hdefault :
        OFF_FETCH_LIMIT settings = None ->
        ltb (of_Z 3)
          (fetch_limit Number_of_string settings (length ingredients)) = false).
      { intros Hnone. unfold fetch_limit. rewrite Hnone.
        apply Math_min_not_above. }
      assert (Hlen :
        ltb (of_Z (Z.of_nat (length ingredients)))
          (fetch_limit Number_of_string settings (length ingredients)) = false).
      { unfold fetch_limit.
        apply Math_min_not_above_l. }
      destruct (@lookups_sent domain
                  (fetch_limit Number_of_string settings (length ingredients))
                  (Z.of_nat (length ingredients)) ingredients 0%Z [] w
                  (Zle_0_nat _) Hlen) as [reqs [Hs [_ Hl]]].
      exists reqs. split; [exact Hs|]. split; [exact Hl|]. split.
      * intros bound Hb0 Hb.
        destruct (@lookups_sent domain
                    (fetch_limit Number_of_string settings (length ingredients))
                    bound ingredients 0%Z [] w Hb0 Hb) as [reqs' [Hs' [Hb' _]]].
        rewrite Hs in Hs'. apply app_inv_head in Hs'. subst reqs'. lia.
      * intros Hnone.
        destruct (@lookups_sent domain
                    (fetch_limit Number_of_string settings (length ingredients))
                    3%Z ingredients 0%Z [] w ltac:(lia) (Hdefault Hnone))
          as [reqs' [Hs' [Hb' _]]].
        rewrite Hs in Hs'. apply app_inv_head in Hs'. subst reqs'. lia.
Qed.

End WithRuntime.
Lemma fetchExternalRecords_spec_witness :
  @fetchExternalRecords Demo.runtime Some (fun _ => of_Z 3)
    {| WEB_FETCH_ENABLED := Some (lit "false"); OFF_FETCH_LIMIT := None |}
    [lit "water"] Ocr.food (Demo.script [])
  = (Returned [], Demo.script []).
Proof.
  apply (proj1 (@fetchExternalRecords_spec Demo.runtime Some (fun _ => of_Z 3)
                  {| WEB_FETCH_ENABLED := Some (lit "false");
                     OFF_FETCH_LIMIT := None |}
                  [lit "water"] Ocr.food (Demo.script []))).
  left. reflexivity.
Defined.

End LookupFacts.

(** ** The page *)

Module PageFacts.

Definition rank (it : Explain.ExplanationItem) : Z :=
  Page.priority (Explain.risk_level it).

(** The step of the [reduce] of [latestRiskBadge] once a current item
    exists. *)
Definition keep_higher (current : option Explain.ExplanationItem)
    (item : Explain.ExplanationItem) : option Explain.ExplanationItem :=
  match current with
  | None => Some item
  | Some c => if (rank c <? rank item)%Z then Some item else Some c
  end.

Lemma reduce_from_some items : forall c,
  exists before b after,
    fold_left keep_higher items (Some c) = Some b
    /\ c :: items = before ++ b :: after
    /\ Forall (fun it => (rank it < rank b)%Z) before
    /\ Forall (fun it => (rank it <= rank b)%Z) after.
Proof.
  induction items as [|x items IH]; intros c.
  - exists [], c, []. simpl. repeat split; constructor.
  - simpl fold_left. destruct (rank c <? rank x)%Z eqn:E.
    + apply Z.ltb_lt in E.
      destruct (IH x) as [before [b [after [Hf [Hd [Hb Ha]]]]]].
      exists (c :: before), b, after. split; [exact Hf|].
      split; [rewrite Hd; reflexivity|]. split; [|exact Ha].
      constructor; [|exact Hb].
      destruct before as [|y before]; simpl in Hd; injection Hd as -> _.
      * exact E.
      * inversion Hb; subst. lia.
    + apply Z.ltb_ge in E.
      destruct (IH c) as [before [b [after [Hf [Hd [Hb Ha]]]]]].
      destruct before as [|y before]; simpl in Hd; injection Hd as Hc Hi.
      * subst b. exists [], c, (x :: items). split; [exact Hf|].
        split; [reflexivity|]. split; [constructor|].
        constructor; [exact E|]. rewrite Hi. exact Ha.
      * subst y. exists (c :: x :: before), b, after. split; [exact Hf|].
        split; [rewrite Hi; reflexivity|]. inversion Hb; subst.
        split; [|exact Ha]. constructor; [assumption|].
        constructor; [lia | assumption].
Qed.

(** X20.  [latestRiskBadge] gives nothing exactly for an empty list;
    otherwise it gives the first item of highest priority (Red above
    Yellow above Green above Unknown): every item before it has a lower
    priority and no item after it a higher one. *)
Theorem latestRiskBadge_spec items :
  (Page.latestRiskBadge items = None <-> items = [])
  /\ (forall b,
        Page.latestRiskBadge items = Some b ->
        exists before after,
          items = before ++ b :: after
          /\ Forall (fun it => (rank it < rank b)%Z) before
          /\ Forall (fun it => (rank it <= rank b)%Z) after).
Proof.
  destruct items as [|x items].
  - split; [split; reflexivity | discriminate].
  - assert (Hrun : Page.latestRiskBadge (x :: items)
                   = fold_left keep_higher items (Some x)) by reflexivity.
    destruct (reduce_from_some items x) as [before [b [after [Hf [Hd [Hb Ha]]]]]].
    rewrite Hrun, Hf. split.
    + split; discriminate.
    + intros b' E. injection E as <-. exists before, after.
      split; [exact Hd|]. split; assumption.
Qed.

Lemma latestRiskBadge_spec_witness :
  exists before after,
    [{| Explain.name := lit "salt"; Explain.function := [];
        Explain.risk_level := Explain.Green; Explain.why := [];
        Explain.certainty := zero; Explain.sources := [] |}]
    = before
      ++ {| Explain.name := lit "salt"; Explain.function := [];
            Explain.risk_level := Explain.Green; Explain.why := [];
            Explain.certainty := zero; Explain.sources := [] |} :: after
    /\ Forall (fun it => (rank it < 1)%Z) before
    /\ Forall (fun it => (rank it <= 1)%Z) after.
Proof.
  apply (proj2 (latestRiskBadge_spec
                  [{| Explain.name := lit "salt"; Explain.function := [];
                      Explain.risk_level := Explain.Green; Explain.why := [];
                      Explain.certainty := zero; Explain.sources := [] |}])).
  reflexivity.
Defined.

Lemma StepKey_eqb_eq a b : Page.StepKey_eqb a b = true <-> a = b.
Proof. destruct a, b; simpl; split; congruence. Qed.

Lemma StepKey_eqb_refl a : Page.StepKey_eqb a a = true.
Proof. destruct a; reflexivity. Qed.

(** X21.  [updateStep] keeps the number, the order, the keys and the
    labels of the steps, leaves the steps with another key as they are and
    gives the new status to those with the key; a description left out
    keeps the one of the step.  An update done twice is the update done
    once, a later update of the same key with a description replaces an
    earlier one, and updates of different keys can be exchanged. *)
Theorem updateStep_spec k st descr prev :
  map Page.key (Page.updateStep k st descr prev) = map Page.key prev
  /\ map Page.label (Page.updateStep k st descr prev) = map Page.label prev
  /\ (forall i step,
        nth_error prev i = Some step ->
        nth_error (Page.updateStep k st descr prev) i
        = Some (if Page.StepKey_eqb (Page.key step) k
                then {| Page.key := Page.key step;
                        Page.label := Page.label step;
                        Page.status := st;
                        Page.description :=
                          match descr with
                          | Some d => d
                          | None => Page.description step
                          end |}
                else step))
  /\ Page.updateStep k st descr (Page.updateStep k st descr prev)
     = Page.updateStep k st descr prev
  /\ (forall st1 descr1 d,
        Page.updateStep k st (Some d) (Page.updateStep k st1 descr1 prev)
        = Page.updateStep k st (Some d) prev)
  /\ (forall k' st' descr',
        k <> k' ->
        Page.updateStep k st descr (Page.updateStep k' st' descr' prev)
        = Page.updateStep k' st' descr' (Page.updateStep k st descr prev)).
Proof.
  unfold Page.updateStep. split; [|split; [|split; [|split; [|split]]]].
  - rewrite map_map. apply map_ext. intros step.
    destruct (Page.StepKey_eqb (Page.key step) k); reflexivity.
  - rewrite map_map. apply map_ext. intros step.
    destruct (Page.StepKey_eqb (Page.key step) k); reflexivity.
  - intros i step Hi. rewrite nth_error_map, Hi. reflexivity.
  - rewrite map_map. apply map_ext. intros step.
    destruct (Page.StepKey_eqb (Page.key step) k) eqn:E; simpl; rewrite E;
      [|reflexivity].
    destruct descr; reflexivity.
  - intros st1 descr1 d. rewrite map_map. apply map_ext. intros step.
    destruct (Page.StepKey_eqb (Page.key step) k) eqn:E; simpl; rewrite E;
      reflexivity.
  - intros k' st' descr' Hk. rewrite !map_map. apply map_ext. intros step.
    destruct (Page.StepKey_eqb (Page.key step) k) eqn:E,
             (Page.StepKey_eqb (Page.key step) k') eqn:E';
      simpl; rewrite ?E, ?E'; try reflexivity.
    apply StepKey_eqb_eq in E. apply StepKey_eqb_eq in E'. congruence.
Qed.

Lemma updateStep_spec_witness :
  Page.updateStep Page.ocr Page.active None
    (Page.updateStep Page.analysis Page.complete None [])
  = Page.updateStep Page.analysis Page.complete None
      (Page.updateStep Page.ocr Page.active None []).
Proof.
  apply (proj2 (proj2 (proj2 (proj2 (proj2
           (updateStep_spec Page.ocr Page.active None [])))))).
  discriminate.
Defined.

(** The percentage shown for each of the confidences a result can have:
    an integer from 0 to 100. *)
Definition percent_ok (k : Z) : bool :=
  let r := Page.confidence_percent (decimal k 1000) in
  match to_Q r with
  | Some q =>
      sf_eqb r (of_Z (Qfloor q))
      && (0 <=? Qfloor q)%Z && (Qfloor q <=? 100)%Z
  | None => false
  end.

Lemma percent_checked : forallb percent_ok (map Z.of_nat (seq 0 1001)) = true.
Proof. vm_compute. reflexivity. Qed.

Lemma percent_of_thousandth k :
  (0 <= k <= 1000)%Z ->
  exists j, (0 <= j <= 100)%Z
            /\ Page.confidence_percent (decimal k 1000) = of_Z j.
Proof.
  intros Hk.
  assert (Ht : percent_ok k = true).
  { apply (proj1 (forallb_forall _ _) percent_checked).
    apply in_map_iff. exists (Z.to_nat k). split; [lia|]. apply in_seq. lia. }
  unfold percent_ok in Ht.
  destruct (to_Q (Page.confidence_percent (decimal k 1000))) as [q|];
    [|discriminate].
  rewrite !andb_true_iff in Ht. destruct Ht as [[He H0] H1].
  exists (Qfloor q). split; [lia|]. exact (sf_eqb_eq _ _ He).
Qed.

Lemma result_confidence_thousandth `{Runtime} raw :
  exists k, (0 <= k <= 1000)%Z
            /\ Ocr.confidence (Ocr.normalizeResult raw) = decimal k 1000.
Proof.
  rewrite IdempotenceClaims.normalizeResult_fields. cbn [Ocr.confidence].
  destruct (ConfidenceClaims.normalizeConfidence_thousandths
              (get_opt raw "confidence")) as [k [Hk Hc]].
  destruct (Ocr.normalizeIngredients (get_opt raw "ingredients")).
  - rewrite Hc.
    assert (Hcap := ExtractionClaims.cap_ok_range Hk).
    unfold ExtractionClaims.cap_ok in Hcap.
    rewrite !andb_true_iff in Hcap. destruct Hcap as [[[_ Hm] _] _].
    apply sf_eqb_eq in Hm. rewrite Hm. destruct (k <=? 200)%Z.
    + exists k. split; [exact Hk | reflexivity].
    + exists 200%Z. split; [lia | reflexivity].
  - exists k. split; assumption.
Qed.

(** X22.  The confidence the page shows as a percentage, the rounding of a
    hundred times the confidence of the result, is an integer from 0 to
    100 for every result [analyzeLabel] returns. *)
Theorem confidence_percent_range `{Runtime} env image w r w' :
  Ocr.analyzeLabel env image w = (Returned r, w') ->
  exists j, (0 <= j <= 100)%Z
            /\ Page.confidence_percent (Ocr.confidence r) = of_Z j.
Proof.
  intros Hrun.
  destruct (ExtractionClaims.analyzeLabel_returns env image w Hrun)
    as [->|[raw ->]].
  - exists 0%Z. split; [lia | reflexivity].
  - destruct (result_confidence_thousandth raw) as [k [Hk ->]].
    exact (percent_of_thousandth Hk).
Qed.

Lemma confidence_percent_range_witness :
  exists j, (0 <= j <= 100)%Z
            /\ Page.confidence_percent (Ocr.confidence Ocr.DEFAULT_RESULT) = of_Z j.
Proof.
  apply (@confidence_percent_range Demo.runtime Demo.env (VStr (lit "image"))
           (Demo.script [Responds Demo.success]) Ocr.DEFAULT_RESULT
           (Wording.after (Demo.script [])
              [Ocr.schemaRequest Demo.env (lit "key") (lit "image")] [])).
  vm_compute. reflexivity.
Defined.

End PageFacts.
